(** * GenshinWidget: a shallow embedding of [main.py]

    The program is one PyQt5 widget class, [GenshinApp], driven by the Qt
    event loop.  The embedding follows the source method by method:

    - [Py]: the Python builtins the program calls ([int], [float], [repr],
      [str] of an exception) and the outcome of running a statement;
    - [Ini]: [configparser.ConfigParser] as the program uses it
      (subscripting, [get], [getint], [set], [write], [read]);
    - the state of the [GenshinApp] object, with the calls it makes to Qt,
      to the API client and to the file kept in a log, and its methods
      [initUI], [apply_styles], [set_cookies], [update_info], [update_ui],
      [clear_layout], [startMove], [mouseMoveEvent], [closeEvent];
    - the event loop: the task made at startup, the timer, the mouse and
      the close event;
    - the theorems about them.

    Modelling boundary.  Strings are byte strings: the digits, blanks and
    case mapping that Python knows outside ASCII are not modelled.  The
    settings file is the list of its sections and option lines, with option
    names as the parser normalises them; the values are the strings the
    parser hands out, so [%] interpolation is not modelled.  A floating
    point number is kept as the literal it was parsed from.  The calls to
    [logging], the font and the contents of the icon files have no effect
    on the control flow and are left out. *)

From stdpp Require Import gmap strings list fin_maps pretty.
From Stdlib Require Import ZArith String Ascii.

Open Scope Z_scope.

(** ** Python builtins *)

Module Py.

(** The exceptions that the program can meet. *)
Inductive exn :=
| KeyError (key : string)
| ValueError (msg : string)
| TypeError (msg : string)
| AttributeError (msg : string)
| NoSectionError (section : string)
| DuplicateSectionError (section : string)
| DuplicateOptionError (section option : string)
| GenshinException (msg : string)   (* genshin.errors.GenshinException, [msg] is [str(e)] *)
| Exception (msg : string).         (* any other exception of the API client *)

(** What running a piece of the program ends in. *)
Inductive outcome (A : Type) :=
| Ok (a : A)
| Raise (e : exn)     (* a Python exception is propagating *)
| SysExit             (* [sys.exit()] *)
| Abort (e : exn).    (* exception escaping a Qt slot or event handler *)
Arguments Ok {A} a.
Arguments Raise {A} e.
Arguments SysExit {A}.
Arguments Abort {A} e.

Definition is_digit (c : ascii) : bool :=
  let n := nat_of_ascii c in (48 <=? n)%nat && (n <=? 57)%nat.

Definition digit_value (c : ascii) : Z := Z.of_nat (nat_of_ascii c) - 48.

(** C's [isspace] on ASCII: blank, \t, \n, \v, \f, \r. *)
Definition is_space (c : ascii) : bool :=
  let n := nat_of_ascii c in (n =? 32)%nat || ((9 <=? n)%nat && (n <=? 13)%nat).

Definition is_underscore (c : ascii) : bool := (nat_of_ascii c =? 95)%nat.

Fixpoint lstrip (s : string) : string :=
  match s with
  | String c s' => if is_space c then lstrip s' else s
  | EmptyString => EmptyString
  end.

Fixpoint all_space (s : string) : bool :=
  match s with
  | String c s' => is_space c && all_space s'
  | EmptyString => true
  end.

(** [repr] of a [str]. *)
Fixpoint contains_char (c : ascii) (s : string) : bool :=
  match s with
  | String d s' => (nat_of_ascii c =? nat_of_ascii d)%nat || contains_char c s'
  | EmptyString => false
  end.

Definition hex_digit (n : nat) : ascii :=
  ascii_of_nat (if (n <? 10)%nat then 48 + n else 87 + n).

Definition repr_char (quote : ascii) (c : ascii) : string :=
  let n := nat_of_ascii c in
  if (n =? nat_of_ascii quote)%nat || (n =? 92)%nat then String "\" (String c EmptyString)
  else if (n =? 9)%nat then "\t"
  else if (n =? 10)%nat then "\n"
  else if (n =? 13)%nat then "\r"
  else if (n <? 32)%nat || (n =? 127)%nat
       then String "\" (String "x" (String (hex_digit (n / 16)) (String (hex_digit (n mod 16)) EmptyString)))
  else String c EmptyString.

Fixpoint repr_body (quote : ascii) (s : string) : string :=
  match s with
  | String c s' => repr_char quote c +:+ repr_body quote s'
  | EmptyString => EmptyString
  end.

Definition double_quote : ascii := ascii_of_nat 34.

Definition repr (s : string) : string :=
  let quote : ascii :=
    if contains_char "'" s && negb (contains_char double_quote s) then double_quote
    else "'"%char in
  String quote (repr_body quote s +:+ String quote EmptyString).

Fixpoint take_chars (n : nat) (s : string) : string :=
  match n, s with
  | S n', String c s' => String c (take_chars n' s')
  | _, _ => EmptyString
  end.

(** [int(s)] for a [str] in base 10: blanks, an optional sign, decimal
    digits with single underscores between them, blanks. *)
Fixpoint int_digits (s : string) (prev_underscore : bool) (acc : Z) : option (Z * string) :=
  match s with
  | String c s' =>
      if is_digit c then int_digits s' false (10 * acc + digit_value c)
      else if is_underscore c then
        if prev_underscore then None else int_digits s' true acc
      else if prev_underscore then None else Some (acc, s)
  | EmptyString => if prev_underscore then None else Some (acc, s)
  end.

Definition int_literal (s : string) : option Z :=
  let s1 := lstrip s in
  let '(sign, s2) :=
    match s1 with
    | String "+" r => (1, r)
    | String "-" r => (-1, r)
    | _ => (1, s1)
    end in
  match s2 with
  | String c _ =>
      if is_digit c then
        match int_digits s2 false 0 with
        | Some (n, rest) => if all_space rest then Some (sign * n) else None
        | None => None
        end
      else None
  | EmptyString => None
  end.

Definition int_error (s : string) : exn :=
  ValueError ("invalid literal for int() with base 10: " +:+ take_chars 200 (repr s)).

Definition int (s : string) : outcome Z :=
  match int_literal s with
  | Some z => Ok z
  | None => Raise (int_error s)
  end.

(** [float(s)]: only whether the text is accepted is modelled.  An
    underscore must stand between two digits and is dropped; what is left,
    stripped of blanks, is a signed decimal number with an optional
    exponent, or [inf], [infinity] or [nan] in any case. *)
Fixpoint underscores_ok (prev : option ascii) (s : string) : bool :=
  match s with
  | String c s' =>
      (if is_underscore c
       then match prev with Some p => is_digit p | None => false end
       else match prev with Some p => negb (is_underscore p) || is_digit c | None => true end)
      && underscores_ok (Some c) s'
  | EmptyString => match prev with Some p => negb (is_underscore p) | None => true end
  end.

Fixpoint drop_underscores (s : string) : string :=
  match s with
  | String c s' => if is_underscore c then drop_underscores s' else String c (drop_underscores s')
  | EmptyString => EmptyString
  end.

Fixpoint skip_digits (s : string) : nat * string :=
  match s with
  | String c s' => if is_digit c then let '(n, r) := skip_digits s' in (S n, r) else (O, s)
  | EmptyString => (O, s)
  end.

Definition to_lower (c : ascii) : ascii :=
  let n := nat_of_ascii c in
  if (65 <=? n)%nat && (n <=? 90)%nat then ascii_of_nat (n + 32) else c.

Fixpoint lower (s : string) : string :=
  match s with
  | String c s' => String (to_lower c) (lower s')
  | EmptyString => EmptyString
  end.

Definition skip_sign (s : string) : string :=
  match s with
  | String "+" r => r
  | String "-" r => r
  | _ => s
  end.

Definition float_exponent_ok (s : string) : bool :=
  match s with
  | EmptyString => true
  | String c r =>
      if (nat_of_ascii (to_lower c) =? 101)%nat then
        let '(n, rest) := skip_digits (skip_sign r) in
        (0 <? n)%nat && bool_decide (rest = EmptyString)
      else false
  end.

Definition float_number_ok (s : string) : bool :=
  let '(n1, r1) := skip_digits s in
  let '(n2, r2) :=
    match r1 with
    | String "." r => skip_digits r
    | _ => (O, r1)
    end in
  (0 <? n1 + n2)%nat && float_exponent_ok r2.

Fixpoint rstrip_from (s : string) : string :=
  match s with
  | String c s' => if all_space s then EmptyString else String c (rstrip_from s')
  | EmptyString => EmptyString
  end.

Definition float_literal_ok (s : string) : bool :=
  underscores_ok None s &&
  let t := skip_sign (rstrip_from (lstrip (drop_underscores s))) in
  let l := lower t in
  if decide (l = "inf" ∨ l = "infinity" ∨ l = "nan") then true
  else float_number_ok t.

Definition float_error (s : string) : exn :=
  ValueError ("could not convert string to float: " +:+ repr s).

(** The float is represented by its literal. *)
Definition float (s : string) : outcome string :=
  if float_literal_ok s then Ok s else Raise (float_error s).

(** [str(e)] of an exception. *)
Definition str_exn (e : exn) : string :=
  match e with
  | KeyError key => repr key
  | ValueError msg => msg
  | TypeError msg => msg
  | AttributeError msg => msg
  | NoSectionError section => "No section: " +:+ repr section
  | DuplicateSectionError section => "Section " +:+ repr section +:+ " already exists"
  | DuplicateOptionError section option =>
      "Option " +:+ repr option +:+ " in section " +:+ repr section +:+ " already exists"
  | GenshinException msg => msg
  | Exception msg => msg
  end.

(** [str] of an [int] and of a [bool]. *)
Definition str_int (z : Z) : string := pretty z.
Definition str_bool (b : bool) : string := if b then "True" else "False".

End Py.

(** ** configparser *)

Module Ini.
Import Py.

(** A [ConfigParser]: the options of the [DEFAULT] section, which every
    section inherits, and the options of the named sections.  Option names
    are the parser's normalised, lower-case names; the program only uses
    lower-case literals, on which [optionxform] is the identity. *)
Record ConfigParser := {
  defaults : gmap string string;
  sections : gmap string (gmap string string)
}.

Definition empty : ConfigParser := {| defaults := ∅; sections := ∅ |}.

Definition default_section : string := "DEFAULT".

(** [parser[name]]: the section proxy, here the options seen through it
    (the section's own, then the defaults); [KeyError] for no such
    section. *)
Definition getitem (parser : ConfigParser) (name : string) : outcome (gmap string string) :=
  if decide (name = default_section) then Ok (defaults parser)
  else match sections parser !! name with
       | Some options => Ok (options ∪ defaults parser)
       | None => Raise (KeyError name)
       end.

(** [proxy.get(key)] and [proxy.get(key, fallback)]. *)
Definition get (proxy : gmap string string) (key : string) : option string :=
  proxy !! key.

Definition get_or (proxy : gmap string string) (key fallback : string) : string :=
  default fallback (proxy !! key).

(** [proxy[key]]. *)
Definition getitem_option (proxy : gmap string string) (key : string) : outcome string :=
  match proxy !! key with
  | Some value => Ok value
  | None => Raise (KeyError key)
  end.

(** [parser[section].get(key)]. *)
Definition section_get (parser : ConfigParser) (section key : string)
    : outcome (option string) :=
  match getitem parser section with
  | Ok proxy => Ok (get proxy key)
  | Raise e => Raise e
  | SysExit => SysExit
  | Abort e => Abort e
  end.

(** [proxy.getint(key)]: the fallback [None] when the option is absent. *)
Definition getint (proxy : gmap string string) (key : string) : outcome (option Z) :=
  match proxy !! key with
  | Some value =>
      match int value with
      | Ok z => Ok (Some z)
      | Raise e => Raise e
      | SysExit => SysExit
      | Abort e => Abort e
      end
  | None => Ok None
  end.

(** [proxy.getint(key, fallback)] with an [int] fallback. *)
Definition getint_or (proxy : gmap string string) (key : string) (fallback : Z) : outcome Z :=
  match proxy !! key with
  | Some value => int value
  | None => Ok fallback
  end.

(** [parser.set(section, key, value)]. *)
Definition set (parser : ConfigParser) (section key value : string) : outcome ConfigParser :=
  if decide (section = EmptyString ∨ section = default_section) then
    Ok {| defaults := <[key := value]> (defaults parser); sections := sections parser |}
  else match sections parser !! section with
       | Some options =>
           Ok {| defaults := defaults parser;
                 sections := <[section := <[key := value]> options]> (sections parser) |}
       | None => Raise (NoSectionError section)
       end.

(** The settings file, as the parser reads and writes it: section headers,
    each followed by its [option = value] lines. *)
Definition ini_file : Type := list (string * list (string * string)).

(** [parser.write(fp)]: the defaults first when there are any, then every
    section. *)
Definition write (parser : ConfigParser) : ini_file :=
  (if decide (defaults parser = ∅) then []
   else [(default_section, map_to_list (defaults parser))])
  ++ (prod_map id map_to_list <$> map_to_list (sections parser)).

(** Reading the option lines of one section; an option given twice is an
    error. *)
Fixpoint read_options (section : string) (lines : list (string * string))
    (options : gmap string string) : outcome (gmap string string) :=
  match lines with
  | [] => Ok options
  | (key, value) :: lines' =>
      match options !! key with
      | Some _ => Raise (DuplicateOptionError section key)
      | None => read_options section lines' (<[key := value]> options)
      end
  end.

(** [parser.read]: sections in file order; a section header given twice is
    an error, except for [DEFAULT]. *)
Fixpoint read_sections (file : ini_file) (parser : ConfigParser) : outcome ConfigParser :=
  match file with
  | [] => Ok parser
  | (name, lines) :: file' =>
      if decide (name = default_section) then
        match read_options name lines (defaults parser) with
        | Ok options =>
            read_sections file' {| defaults := options; sections := sections parser |}
        | Raise e => Raise e
        | SysExit => SysExit
        | Abort e => Abort e
        end
      else match sections parser !! name with
           | Some _ => Raise (DuplicateSectionError name)
           | None =>
               match read_options name lines ∅ with
               | Ok options =>
                   read_sections file'
                     {| defaults := defaults parser;
                        sections := <[name := options]> (sections parser) |}
               | Raise e => Raise e
               | SysExit => SysExit
               | Abort e => Abort e
               end
           end
  end.

(** A missing file is skipped by [read]. *)
Definition read (file : option ini_file) : outcome ConfigParser :=
  match file with
  | Some f => read_sections f empty
  | None => Ok empty
  end.

End Ini.

Import Py.
Import Ini (ConfigParser, ini_file).

(** ** The widget and what it does to Qt *)

(** [Qt.WindowType] values used by the program. *)
Definition Qt_Window : Z := 0x00000001.
Definition Qt_Tool : Z := 0x0000000b.
Definition Qt_FramelessWindowHint : Z := 0x00000800.
Definition Qt_WindowStaysOnTopHint : Z := 0x00040000.

Inductive button := LeftButton | RightButton | MidButton.

(** A label widget of a row: a [QLabel] or the [ClickableLabel] of the
    check-in row.  [wid] is the identity of the object. *)
Record widget := {
  wid : nat;
  clickable : bool;
  text : string;
  pixmap : option (string * Z);   (* image file, height it is scaled to *)
  url : option string
}.

(** An item of a box layout: a widget with its stretch factor, or a nested
    layout. *)
#[warnings="-register-all"]
Inductive layout_item :=
| WidgetItem (w : widget) (stretch : Z)
| LayoutItem (items : list layout_item).

(** The calls that leave the program: Qt, the API client, the file. *)
Inductive call :=
| ShowWarning (message : string)
| SetWindowFlags (flags : Z)
| SetTranslucentBackground
| SetWindowOpacity (literal : string)
| Move (x y : Z)
| SetContentsMargins (margin : Z)
| SetCookies (ltuid_v2 ltoken_v2 cookie_token_v2 account_mid_v2 : string)
| SetStyleSheet (font_size : option Z) (font_color : string) (corner_radius : Z)
| SetBackgroundImage (path : option string)
| SetFrameStyleSheet (background_color : string)
| SetFixedSize (width height : Z)
| Resize (width height : Z)
| Connect
| EnsureFuture
| TimerStart (msec : Z)
| GetNotes (uid : Z)
| Emit (resin_info checkin_info realm_currency_info : string)
| TakeAt
| DeleteLater (id : nat)
| AddLayout (row : layout_item)
| AdjustSize
| WriteSettings (file : ini_file)
| Show
| Accept.

(** The attributes that [apply_styles] reads. *)
Record style := {
  font_size : option Z;
  font_color : string;
  show_background : bool;
  background_color : string;
  background_image : string
}.

(** The [GenshinApp] object, the Qt state it reads back, the settings file
    and the log of calls.  [oldPos] is [None] until [startMove] assigns the
    attribute. *)
Record app := {
  config : ConfigParser;
  settings_ini : option ini_file;
  log : list call;
  window_flags : Z;
  position : Z * Z;
  content_layout : list layout_item;
  styles : style;
  word_wrap : bool;
  fit_window_to_text : bool;
  press_handler : bool;     (* [mousePressEvent] is bound to [startMove] *)
  connected : bool;         (* [update_ui_signal] is connected to [update_ui] *)
  futures : nat;            (* [add_info_labels] tasks waiting to run *)
  timer : option Z;         (* interval of the running timer, msec *)
  oldPos : option (Z * Z);
  next_id : nat
}.

Definition set_config (v : ConfigParser) (a : app) : app :=
  {| config := v; settings_ini := settings_ini a; log := log a; window_flags := window_flags a;
     position := position a; content_layout := content_layout a; styles := styles a;
     word_wrap := word_wrap a; fit_window_to_text := fit_window_to_text a;
     press_handler := press_handler a; connected := connected a; futures := futures a;
     timer := timer a; oldPos := oldPos a; next_id := next_id a |}.
Definition set_settings_ini (v : option ini_file) (a : app) : app :=
  {| config := config a; settings_ini := v; log := log a; window_flags := window_flags a;
     position := position a; content_layout := content_layout a; styles := styles a;
     word_wrap := word_wrap a; fit_window_to_text := fit_window_to_text a;
     press_handler := press_handler a; connected := connected a; futures := futures a;
     timer := timer a; oldPos := oldPos a; next_id := next_id a |}.
Definition set_log (v : list call) (a : app) : app :=
  {| config := config a; settings_ini := settings_ini a; log := v;
     window_flags := window_flags a; position := position a;
     content_layout := content_layout a; styles := styles a; word_wrap := word_wrap a;
     fit_window_to_text := fit_window_to_text a; press_handler := press_handler a;
     connected := connected a; futures := futures a; timer := timer a; oldPos := oldPos a;
     next_id := next_id a |}.
Definition set_window_flags (v : Z) (a : app) : app :=
  {| config := config a; settings_ini := settings_ini a; log := log a; window_flags := v;
     position := position a; content_layout := content_layout a; styles := styles a;
     word_wrap := word_wrap a; fit_window_to_text := fit_window_to_text a;
     press_handler := press_handler a; connected := connected a; futures := futures a;
     timer := timer a; oldPos := oldPos a; next_id := next_id a |}.
Definition set_position (v : Z * Z) (a : app) : app :=
  {| config := config a; settings_ini := settings_ini a; log := log a;
     window_flags := window_flags a; position := v; content_layout := content_layout a;
     styles := styles a; word_wrap := word_wrap a; fit_window_to_text := fit_window_to_text a;
     press_handler := press_handler a; connected := connected a; futures := futures a;
     timer := timer a; oldPos := oldPos a; next_id := next_id a |}.
Definition set_content_layout (v : list layout_item) (a : app) : app :=
  {| config := config a; settings_ini := settings_ini a; log := log a;
     window_flags := window_flags a; position := position a; content_layout := v;
     styles := styles a; word_wrap := word_wrap a; fit_window_to_text := fit_window_to_text a;
     press_handler := press_handler a; connected := connected a; futures := futures a;
     timer := timer a; oldPos := oldPos a; next_id := next_id a |}.
Definition set_styles (v : style) (a : app) : app :=
  {| config := config a; settings_ini := settings_ini a; log := log a;
     window_flags := window_flags a; position := position a;
     content_layout := content_layout a; styles := v; word_wrap := word_wrap a;
     fit_window_to_text := fit_window_to_text a; press_handler := press_handler a;
     connected := connected a; futures := futures a; timer := timer a; oldPos := oldPos a;
     next_id := next_id a |}.
Definition set_word_wrap (v : bool) (a : app) : app :=
  {| config := config a; settings_ini := settings_ini a; log := log a;
     window_flags := window_flags a; position := position a;
     content_layout := content_layout a; styles := styles a; word_wrap := v;
     fit_window_to_text := fit_window_to_text a; press_handler := press_handler a;
     connected := connected a; futures := futures a; timer := timer a; oldPos := oldPos a;
     next_id := next_id a |}.
Definition set_fit_window_to_text (v : bool) (a : app) : app :=
  {| config := config a; settings_ini := settings_ini a; log := log a;
     window_flags := window_flags a; position := position a;
     content_layout := content_layout a; styles := styles a; word_wrap := word_wrap a;
     fit_window_to_text := v; press_handler := press_handler a; connected := connected a;
     futures := futures a; timer := timer a; oldPos := oldPos a; next_id := next_id a |}.
Definition set_press_handler (v : bool) (a : app) : app :=
  {| config := config a; settings_ini := settings_ini a; log := log a;
     window_flags := window_flags a; position := position a;
     content_layout := content_layout a; styles := styles a; word_wrap := word_wrap a;
     fit_window_to_text := fit_window_to_text a; press_handler := v; connected := connected a;
     futures := futures a; timer := timer a; oldPos := oldPos a; next_id := next_id a |}.
Definition set_connected (v : bool) (a : app) : app :=
  {| config := config a; settings_ini := settings_ini a; log := log a;
     window_flags := window_flags a; position := position a;
     content_layout := content_layout a; styles := styles a; word_wrap := word_wrap a;
     fit_window_to_text := fit_window_to_text a; press_handler := press_handler a;
     connected := v; futures := futures a; timer := timer a; oldPos := oldPos a;
     next_id := next_id a |}.
Definition set_futures (v : nat) (a : app) : app :=
  {| config := config a; settings_ini := settings_ini a; log := log a;
     window_flags := window_flags a; position := position a;
     content_layout := content_layout a; styles := styles a; word_wrap := word_wrap a;
     fit_window_to_text := fit_window_to_text a; press_handler := press_handler a;
     connected := connected a; futures := v; timer := timer a; oldPos := oldPos a;
     next_id := next_id a |}.
Definition set_timer (v : option Z) (a : app) : app :=
  {| config := config a; settings_ini := settings_ini a; log := log a;
     window_flags := window_flags a; position := position a;
     content_layout := content_layout a; styles := styles a; word_wrap := word_wrap a;
     fit_window_to_text := fit_window_to_text a; press_handler := press_handler a;
     connected := connected a; futures := futures a; timer := v; oldPos := oldPos a;
     next_id := next_id a |}.
Definition set_oldPos (v : option (Z * Z)) (a : app) : app :=
  {| config := config a; settings_ini := settings_ini a; log := log a;
     window_flags := window_flags a; position := position a;
     content_layout := content_layout a; styles := styles a; word_wrap := word_wrap a;
     fit_window_to_text := fit_window_to_text a; press_handler := press_handler a;
     connected := connected a; futures := futures a; timer := timer a; oldPos := v;
     next_id := next_id a |}.
Definition set_next_id (v : nat) (a : app) : app :=
  {| config := config a; settings_ini := settings_ini a; log := log a;
     window_flags := window_flags a; position := position a;
     content_layout := content_layout a; styles := styles a; word_wrap := word_wrap a;
     fit_window_to_text := fit_window_to_text a; press_handler := press_handler a;
     connected := connected a; futures := futures a; timer := timer a; oldPos := oldPos a;
     next_id := v |}.

(** The process before [GenshinApp()] runs, with the settings file found
    on disk (or none). *)
Definition fresh (file : option ini_file) : app := {|
  config := Ini.empty;
  settings_ini := file;
  log := [];
  window_flags := 0;
  position := (0, 0);
  content_layout := [];
  styles := {| font_size := None; font_color := ""; show_background := false;
               background_color := ""; background_image := "" |};
  word_wrap := false;
  fit_window_to_text := false;
  press_handler := false;
  connected := false;
  futures := O;
  timer := None;
  oldPos := None;
  next_id := O
|}.

(** ** Statements: state over [app], ending in an [outcome] *)

Definition M (A : Type) : Type := app → outcome A * app.

Definition ret {A} (a : A) : M A := λ st, (Ok a, st).

Definition bind {A B} (m : M A) (k : A → M B) : M B := λ st,
  match m st with
  | (Ok a, st') => k a st'
  | (Raise e, st') => (Raise e, st')
  | (SysExit, st') => (SysExit, st')
  | (Abort e, st') => (Abort e, st')
  end.

Notation "x <- m ;; k" := (bind m (λ x, k))
  (at level 100, m at next level, right associativity, only parsing).
Notation "m ;;; k" := (bind m (λ _, k))
  (at level 100, right associativity, only parsing).

(** A pure computation that may raise. *)
Definition lift {A} (o : outcome A) : M A := λ st, (o, st).

Definition raise {A} (e : exn) : M A := lift (Raise e).

Definition gets {A} (f : app → A) : M A := λ st, (Ok (f st), st).

Definition modify (f : app → app) : M unit := λ st, (Ok tt, f st).

(** A call is appended to the log. *)
Definition do_call (c : call) : M unit := modify (λ st, set_log (log st ++ [c]) st).

Fixpoint do_calls (cs : list call) : M unit :=
  match cs with
  | [] => ret tt
  | c :: cs' => do_call c ;;; do_calls cs'
  end.

(** [try: body except Exception as e: handler] *)
Definition try_except {A} (body : M A) (handler : exn → M A) : M A := λ st,
  match body st with
  | (Raise e, st') => handler e st'
  | r => r
  end.

(** [try: body except genshin.errors.GenshinException as e: handler] *)
Definition try_except_genshin {A} (body : M A) (handler : string → M A) : M A := λ st,
  match body st with
  | (Raise (GenshinException msg), st') => handler msg st'
  | r => r
  end.

(** An exception that leaves a slot or an event handler called by Qt
    cannot be caught by the program: PyQt5 ends the process. *)
Definition called_by_qt {A} (m : M A) : M A := λ st,
  match m st with
  | (Raise e, st') => (Abort e, st')
  | r => r
  end.

(** ** The methods of [GenshinApp] *)

Definition show_warning (message : string) : M unit := do_call (ShowWarning message).

Definition sys_exit {A} : M A := lift SysExit.

Definition bool_from_str (value : string) : bool := bool_decide (value = "1").

(** Python's [not v] for the result of [proxy.get]: [None] and the empty
    string are false. *)
Definition falsy (v : option string) : bool :=
  match v with
  | None => true
  | Some s => bool_decide (s = EmptyString)
  end.

(** [self.windowFlags()], [self.setWindowFlags], [self.move], [self.x()],
    [self.y()]. *)
Definition setWindowFlags (flags : Z) : M unit :=
  modify (set_window_flags flags) ;;; do_call (SetWindowFlags flags).

Definition move (x y : Z) : M unit :=
  modify (set_position (x, y)) ;;; do_call (Move x y).

(** Lines 57-62: read [settings.ini] and take the three sections. *)
Definition load_settings : M (gmap string string * gmap string string * gmap string string) :=
  file <- gets settings_ini ;;
  parser <- lift (Ini.read file) ;;
  modify (set_config parser) ;;;
  display_config <- lift (Ini.getitem parser "Display") ;;
  auth_config <- lift (Ini.getitem parser "Auth") ;;
  window_config <- lift (Ini.getitem parser "Window") ;;
  ret (display_config, auth_config, window_config).

(** Lines 68-71: check for auth details. *)
Definition check_auth (auth_config : gmap string string) : M unit :=
  if falsy (Ini.get auth_config "ltuid_v2") || falsy (Ini.get auth_config "ltoken_v2")
     || falsy (Ini.get auth_config "cookie_token_v2")
     || falsy (Ini.get auth_config "account_mid_v2")
  then show_warning "Authentication details are missing in settings.ini" ;;; sys_exit
  else ret tt.

(** Lines 77-82: ensure only one of word_wrap and fit_window_to_text is
    enabled. *)
Definition check_exclusive (display_config : gmap string string) : M (bool * bool) :=
  v <- lift (Ini.getitem_option display_config "word_wrap") ;;
  let word_wrap := bool_from_str v in
  v <- lift (Ini.getitem_option display_config "fit_window_to_text") ;;
  let fit_window_to_text := bool_from_str v in
  if word_wrap && fit_window_to_text
  then show_warning "Both 'word_wrap' and 'fit_window_to_text' cannot be enabled simultaneously." ;;;
       sys_exit
  else ret (word_wrap, fit_window_to_text).

(** Lines 84-91: setup window properties. *)
Definition setup_window (display_config : gmap string string) : M unit :=
  v <- lift (Ini.getitem_option display_config "show_in_taskbar") ;;
  setWindowFlags (if negb (bool_from_str v) then Qt_FramelessWindowHint else Qt_Window) ;;;
  do_call SetTranslucentBackground ;;;
  v <- lift (Ini.getitem_option display_config "transparency") ;;
  opacity <- lift (float v) ;;
  do_call (SetWindowOpacity opacity) ;;;
  v <- lift (Ini.getitem_option display_config "always_on_top") ;;
  (if bool_from_str v
   then flags <- gets window_flags ;; setWindowFlags (Z.lor flags Qt_WindowStaysOnTopHint)
   else ret tt) ;;;
  v <- lift (Ini.getitem_option display_config "show_in_taskbar") ;;
  if negb (bool_from_str v)
  then flags <- gets window_flags ;; setWindowFlags (Z.lor flags Qt_Tool)
  else ret tt.

(** Lines 93-94: restore last window position. *)
Definition restore_position (window_config : gmap string string) : M unit :=
  x <- lift (Ini.getint_or window_config "last_x" 100) ;;
  y <- lift (Ini.getint_or window_config "last_y" 100) ;;
  move x y.

(** Lines 96-110: the layouts, the background frame and the margins.  The
    content layout starts empty. *)
Definition setup_layout (display_config : gmap string string) : M unit :=
  modify (set_content_layout []) ;;;
  margins <- lift (Ini.getint_or display_config "margins" 10) ;;
  do_call (SetContentsMargins margins).

(** [set_cookies], called at lines 122-125. *)
Definition set_cookies (auth_config : gmap string string) : M unit :=
  ltuid_v2 <- lift (Ini.getitem_option auth_config "ltuid_v2") ;;
  ltoken_v2 <- lift (Ini.getitem_option auth_config "ltoken_v2") ;;
  cookie_token_v2 <- lift (Ini.getitem_option auth_config "cookie_token_v2") ;;
  account_mid_v2 <- lift (Ini.getitem_option auth_config "account_mid_v2") ;;
  do_call (SetCookies ltuid_v2 ltoken_v2 cookie_token_v2 account_mid_v2).

(** [apply_styles]. *)
Definition apply_styles : M unit :=
  parser <- gets config ;;
  display_config <- lift (Ini.getitem parser "Display") ;;
  corner_radius <- lift (Ini.getint_or display_config "corner_radius" 0) ;;
  s <- gets styles ;;
  do_call (SetStyleSheet (font_size s) (font_color s) corner_radius) ;;;
  if show_background s && negb (bool_decide (background_image s = EmptyString))
  then do_call (SetBackgroundImage (Some (background_image s)))
  else do_call (SetBackgroundImage None) ;;;
       do_call (SetFrameStyleSheet (background_color s)).

(** Lines 127-138: font size and colour, background, then [apply_styles].
    The five attributes are assigned together: nothing reads them before
    the last one is set. *)
Definition setup_styles (display_config : gmap string string) : M unit :=
  size <- lift (Ini.getint display_config "font_size") ;;
  color <- lift (Ini.getitem_option display_config "font_color") ;;
  v <- lift (Ini.getitem_option display_config "show_background") ;;
  bcolor <- lift (Ini.getitem_option display_config "background_color") ;;
  let image := Ini.get_or display_config "background_image" "" in
  modify (set_styles {| font_size := size; font_color := color;
                        show_background := bool_from_str v;
                        background_color := bcolor; background_image := image |}) ;;;
  apply_styles.

(** Lines 140-162: size, dragging, the signal, the first refresh and the
    timer. *)
Definition setup_events (display_config : gmap string string) (flags : bool * bool) : M unit :=
  v <- lift (Ini.getitem_option display_config "allow_resizing") ;;
  (if negb (bool_from_str v) then do_call (SetFixedSize 400 300) else do_call (Resize 400 300)) ;;;
  v <- lift (Ini.getitem_option display_config "draggable") ;;
  (if bool_from_str v then modify (set_press_handler true) else ret tt) ;;;
  modify (set_connected true) ;;; do_call Connect ;;;
  modify (set_word_wrap flags.1) ;;;
  modify (set_fit_window_to_text flags.2) ;;;
  n <- gets futures ;; modify (set_futures (S n)) ;;; do_call EnsureFuture ;;;
  modify (set_timer (Some 60000)) ;;; do_call (TimerStart 60000).

(** Lines 84-162: what [initUI] does once both checks have passed. *)
Definition build_window (display_config auth_config window_config : gmap string string)
    (flags : bool * bool) : M unit :=
  setup_window display_config ;;;
  restore_position window_config ;;;
  setup_layout display_config ;;;
  set_cookies auth_config ;;;
  setup_styles display_config ;;;
  setup_events display_config flags.

Definition initUI : M unit :=
  p <- load_settings ;;
  let '(display_config, auth_config, window_config) := p in
  check_auth auth_config ;;;
  flags <- check_exclusive display_config ;;
  build_window display_config auth_config window_config flags.

(** [clear_layout]: take every item out; a widget is scheduled for
    deletion, a nested layout is cleared in turn.  The result is the calls
    made. *)
Fixpoint clear_item (item : layout_item) : list call :=
  match item with
  | WidgetItem w _ => [DeleteLater (wid w)]
  | LayoutItem items =>
      (fix clear (l : list layout_item) : list call :=
         match l with
         | [] => []
         | item' :: l' => TakeAt :: clear_item item' ++ clear l'
         end) items
  end.

Definition clear_layout (layout : list layout_item) : list call :=
  clear_item (LayoutItem layout).

(** [QLabel()] and [ClickableLabel()]: a new object. *)
Definition new_object : M nat :=
  id <- gets next_id ;; modify (set_next_id (S id)) ;;; ret id.

(** [QPixmap(file).scaledToHeight(self.font_size)]: the binding refuses
    [None] for the height. *)
Definition scaledToHeight (file : string) : M (string * Z) :=
  s <- gets styles ;;
  match font_size s with
  | Some height => ret (file, height)
  | None => raise (TypeError "scaledToHeight(self, int, mode: Qt.TransformationMode = Qt.FastTransformation): argument 1 has unexpected type 'NoneType'")
  end.

Definition checkin_url : string :=
  "https://act.hoyolab.com/ys/event/signin-sea-v3/index.html?act_id=e202102251931481".

(** One row: an icon, then the label with stretch factor 1. *)
Definition row (icon label : widget) : layout_item :=
  LayoutItem [WidgetItem icon 0; WidgetItem label 1].

Definition addLayout (item : layout_item) : M unit :=
  layout <- gets content_layout ;;
  modify (set_content_layout (layout ++ [item])) ;;;
  do_call (AddLayout item).

Definition update_ui (resin_info checkin_info realm_currency_info : string) : M unit :=
  (* Clear previous widgets *)
  layout <- gets content_layout ;;
  do_calls (clear_layout layout) ;;;
  modify (set_content_layout []) ;;;
  (* Create resin info row *)
  resin_icon <- new_object ;;
  resin_pixmap <- scaledToHeight "resin.png" ;;
  resin_label <- new_object ;;
  let resin_row :=
    row {| wid := resin_icon; clickable := false; text := ""; pixmap := Some resin_pixmap; url := None |}
        {| wid := resin_label; clickable := false; text := resin_info; pixmap := None; url := None |} in
  (* Create checkin info row *)
  checkin_icon <- new_object ;;
  checkin_pixmap <- scaledToHeight "checkin.png" ;;
  checkin_label <- new_object ;;
  let checkin_row :=
    row {| wid := checkin_icon; clickable := true; text := ""; pixmap := Some checkin_pixmap;
           url := Some checkin_url |}
        {| wid := checkin_label; clickable := false; text := checkin_info; pixmap := None; url := None |} in
  (* Create realm currency info row *)
  realm_currency_icon <- new_object ;;
  realm_currency_pixmap <- scaledToHeight "realmCurr.png" ;;
  realm_currency_label <- new_object ;;
  let realm_currency_row :=
    row {| wid := realm_currency_icon; clickable := false; text := "";
           pixmap := Some realm_currency_pixmap; url := None |}
        {| wid := realm_currency_label; clickable := false; text := realm_currency_info;
           pixmap := None; url := None |} in
  (* Add rows to content layout *)
  addLayout resin_row ;;;
  addLayout checkin_row ;;;
  addLayout realm_currency_row ;;;
  fit <- gets fit_window_to_text ;;
  if fit then do_call AdjustSize else ret tt.

(** [update_ui_signal.emit]: the connected slot runs at once. *)
Definition emit (resin_info checkin_info realm_currency_info : string) : M unit :=
  do_call (Emit resin_info checkin_info realm_currency_info) ;;;
  is_connected <- gets connected ;;
  if is_connected
  then called_by_qt (update_ui resin_info checkin_info realm_currency_info)
  else ret tt.

(** What [client.get_notes] gives back: the fields the program reads, or
    an exception. *)
Record notes := {
  current_resin : Z;
  max_resin : Z;
  claimed_commission_reward : bool;
  current_realm_currency : Z
}.

Inductive response :=
| Notes (n : notes)
| Fails (e : exn).

Definition get_notes (client : Z → response) (uid : Z) : M notes :=
  do_call (GetNotes uid) ;;;
  match client uid with
  | Notes n => ret n
  | Fails e => raise e
  end.

Definition update_info (client : Z → response) : M unit :=
  try_except
    (parser <- gets config ;;
     auth_config <- lift (Ini.getitem parser "Auth") ;;
     v <- lift (Ini.getitem_option auth_config "ltuid_v2") ;;
     uid <- lift (int v) ;;
     display_config <- lift (Ini.getitem parser "Display") ;;
     let show_notes := Ini.get_or display_config "show_notes" "0" in
     if bool_from_str show_notes then
       try_except_genshin
         (n <- get_notes client uid ;;
          let resin_info :=
            "Resin: " +:+ str_int (current_resin n) +:+ "/" +:+ str_int (max_resin n) in
          let checkin_info :=
            "Daily Reward Claimed: " +:+ str_bool (claimed_commission_reward n) in
          let realm_currency_info :=
            "Realm Currency: " +:+ str_int (current_realm_currency n) +:+ "/2400" in
          emit resin_info checkin_info realm_currency_info)
         (λ msg, emit ("Error fetching notes: " +:+ msg) "" "")
     else ret tt)
    (λ e, emit ("Error fetching data: " +:+ str_exn e) "" "").

Definition add_info_labels (client : Z → response) : M unit := update_info client.

Definition startMove (b : button) (globalPos : Z * Z) : M unit :=
  match b with
  | LeftButton => modify (set_oldPos (Some globalPos))
  | _ => ret tt
  end.

(** Save the current window position to [settings.ini]: the two [set]
    calls and the [write] shared by [mouseMoveEvent] and [closeEvent]. *)
Definition save_position : M unit :=
  parser <- gets config ;;
  p <- gets position ;;
  parser <- lift (Ini.set parser "Window" "last_x" (str_int p.1)) ;;
  modify (set_config parser) ;;;
  p <- gets position ;;
  parser <- lift (Ini.set parser "Window" "last_y" (str_int p.2)) ;;
  modify (set_config parser) ;;;
  modify (set_settings_ini (Some (Ini.write parser))) ;;;
  do_call (WriteSettings (Ini.write parser)).

Definition mouseMoveEvent (globalPos : Z * Z) : M unit :=
  old <- gets oldPos ;;
  match old with
  | None => raise (AttributeError "'GenshinApp' object has no attribute 'oldPos'")
  | Some old =>
      let delta := (globalPos.1 - old.1, globalPos.2 - old.2) in
      p <- gets position ;;
      move (p.1 + delta.1) (p.2 + delta.2) ;;;
      modify (set_oldPos (Some globalPos)) ;;;
      save_position
  end.

Definition closeEvent : M unit :=
  save_position ;;;
  do_call Accept.

(** ** The program: [GenshinApp()], [window.show()], then the event loop *)

Definition main : M unit :=
  initUI ;;;
  do_call Show.

Inductive event :=
| FutureReady (client : Z → response)   (* the task made by [ensure_future] runs *)
| TimerTimeout (client : Z → response)
| MousePress (b : button) (globalPos : Z * Z)
| MouseMove (globalPos : Z * Z)
| Close.

Definition dispatch (ev : event) : M unit :=
  match ev with
  | FutureReady client =>
      n <- gets futures ;;
      match n with
      | O => ret tt
      | S n' => modify (set_futures n') ;;; add_info_labels client
      end
  | TimerTimeout client =>
      t <- gets timer ;;
      match t with
      | Some _ => update_info client
      | None => ret tt
      end
  | MousePress b globalPos =>
      handler <- gets press_handler ;;
      if handler then called_by_qt (startMove b globalPos) else ret tt
  | MouseMove globalPos => called_by_qt (mouseMoveEvent globalPos)
  | Close => called_by_qt closeEvent
  end.

Fixpoint run (events : list event) : M unit :=
  match events with
  | [] => ret tt
  | ev :: events' => dispatch ev ;;; run events'
  end.

(** ** What is observed of a run *)

(** The widgets held by a layout item, nested layouts included. *)
Fixpoint widgets_of (item : layout_item) : list widget :=
  match item with
  | WidgetItem w _ => [w]
  | LayoutItem items =>
      (fix collect (l : list layout_item) : list widget :=
         match l with
         | [] => []
         | item' :: l' => widgets_of item' ++ collect l'
         end) items
  end.

Definition layout_widgets (layout : list layout_item) : list widget :=
  widgets_of (LayoutItem layout).


(** The account ids [get_notes] was called with, and the triples sent to
    the render layer. *)
Definition api_calls (l : list call) : list Z :=
  omap (λ c, match c with GetNotes uid => Some uid | _ => None end) l.

Definition emitted (l : list call) : list (string * string * string) :=
  omap (λ c, match c with Emit a b c => Some (a, b, c) | _ => None end) l.

Definition warnings (l : list call) : list string :=
  omap (λ c, match c with ShowWarning m => Some m | _ => None end) l.

Definition contains (s sub : string) : Prop :=
  ∃ pre post : string, s = pre +:+ sub +:+ post.

(** The rows [update_ui] builds when the next free object id is [id] and
    the font size is [h]. *)
Definition rows_of (id : nat) (h : Z) (resin_info checkin_info realm_currency_info : string)
    : list layout_item :=
  [ row {| wid := id; clickable := false; text := ""; pixmap := Some ("resin.png", h);
           url := None |}
        {| wid := S id; clickable := false; text := resin_info; pixmap := None; url := None |};
    row {| wid := S (S id); clickable := true; text := ""; pixmap := Some ("checkin.png", h);
           url := Some checkin_url |}
        {| wid := S (S (S id)); clickable := false; text := checkin_info; pixmap := None;
           url := None |};
    row {| wid := S (S (S (S id))); clickable := false; text := "";
           pixmap := Some ("realmCurr.png", h); url := None |}
        {| wid := S (S (S (S (S id)))); clickable := false; text := realm_currency_info;
           pixmap := None; url := None |} ].

(** The state after a refresh of the rows. *)
Definition refreshed (h : Z) (a b c : string) (st : app) : app :=
  let rows := rows_of (next_id st) h a b c in
  set_log (log st ++ clear_layout (content_layout st) ++ (AddLayout <$> rows)
           ++ (if fit_window_to_text st then [AdjustSize] else []))
    (set_content_layout rows (set_next_id (6 + next_id st) st)).

(** What startup establishes and every handled event keeps. *)
Record running (st : app) : Prop := {
  running_window : is_Some (Ini.sections (config st) !! "Window");
  running_default : Ini.sections (config st) !! Ini.default_section = None;
  running_connected : connected st = true;
  running_timer : timer st = Some 60000;
  running_ids : Forall (λ w, (wid w < next_id st)%nat) (layout_widgets (content_layout st))
}.

(** Clearing a layout only takes items out and schedules deletions. *)
Definition clearing_call (c : call) : bool :=
  match c with
  | TakeAt | DeleteLater _ => true
  | _ => false
  end.

(** A successful run, statement by statement: [ok_post m st Q] says that
    whenever [m] started in [st] ends normally, [Q] holds of its result and
    final state. *)
Definition ok_post {A} (m : M A) (st : app) (Q : A → app → Prop) : Prop :=
  ∀ a st', m st = (Ok a, st') → Q a st'.

(** What [build_window] leaves behind when it succeeds. *)
Definition built (d w : gmap string string) (flags : bool * bool) (st st' : app) : Prop :=
  config st' = config st ∧ settings_ini st' = settings_ini st ∧
  Ini.getint_or w "last_x" 100 = Ok (position st').1 ∧
  Ini.getint_or w "last_y" 100 = Ok (position st').2 ∧
  content_layout st' = [] ∧ next_id st' = next_id st ∧
  connected st' = true ∧ timer st' = Some 60000 ∧ futures st' = S (futures st) ∧
  word_wrap st' = flags.1 ∧ fit_window_to_text st' = flags.2 ∧ oldPos st' = oldPos st ∧
  Ini.getint d "font_size" = Ok (font_size (styles st')).


(** The parser once the position [p] is stored in section [Window], whose
    own options were [w]; and the state once it is written to the file. *)
Definition with_position (parser : ConfigParser) (w : gmap string string) (p : Z * Z)
    : ConfigParser :=
  {| Ini.defaults := Ini.defaults parser;
     Ini.sections :=
       <["Window" := <["last_y" := str_int p.2]> (<["last_x" := str_int p.1]> w)]>
         (Ini.sections parser) |}.

Definition saved (w : gmap string string) (st : app) : app :=
  let parser := with_position (config st) w (position st) in
  set_log (log st ++ [WriteSettings (Ini.write parser)])
    (set_settings_ini (Some (Ini.write parser)) (set_config parser st)).

(** The state after [self.move(x, y)]. *)
Definition moved (x y : Z) (st : app) : app :=
  set_log (log st ++ [Move x y]) (set_position (x, y) st).

(** What a successful [main] has gone through: the file was read, the
    three sections were there, both checks passed with the flags [flags],
    and [build_window] ran to its end before [show]. *)
Definition started (file : option ini_file) (st : app) : Prop :=
  ∃ parser d a w flags st0,
    Ini.read file = Ok parser ∧
    Ini.getitem parser "Display" = Ok d ∧
    Ini.getitem parser "Auth" = Ok a ∧
    Ini.getitem parser "Window" = Ok w ∧
    built d w flags (set_config parser (fresh file)) st0 ∧
    st = set_log (log st0 ++ [Show]) st0.


Definition setting (file : option ini_file) (section key : string) : outcome (option string) :=
  match Ini.read file with
  | Ok parser => Ini.section_get parser section key
  | Raise e => Raise e
  | SysExit => SysExit
  | Abort e => Abort e
  end.

(** ** Inputs used as examples *)

Definition sample_settings : ini_file :=
  [ ("Display",
     [ ("transparency", "0.8"); ("font_size", "14"); ("font_color", "white");
       ("show_background", "1"); ("background_color", "#202020"); ("background_image", "");
       ("corner_radius", "10"); ("margins", "10"); ("allow_resizing", "0");
       ("draggable", "1"); ("always_on_top", "1"); ("show_in_taskbar", "0");
       ("word_wrap", "0"); ("fit_window_to_text", "1"); ("show_notes", "1") ]);
    ("Auth",
     [ ("ltuid_v2", "123456789"); ("ltoken_v2", "v2_token");
       ("cookie_token_v2", "v2_cookie"); ("account_mid_v2", "mid") ]);
    ("Window", [ ("last_x", "250"); ("last_y", "80") ]) ].

(** Its sections, as the parser hands them out. *)
Definition sample_display : gmap string string :=
  list_to_map
    [ ("transparency", "0.8"); ("font_size", "14"); ("font_color", "white");
      ("show_background", "1"); ("background_color", "#202020"); ("background_image", "");
      ("corner_radius", "10"); ("margins", "10"); ("allow_resizing", "0");
      ("draggable", "1"); ("always_on_top", "1"); ("show_in_taskbar", "0");
      ("word_wrap", "0"); ("fit_window_to_text", "1"); ("show_notes", "1") ].

Definition sample_auth : gmap string string :=
  list_to_map
    [ ("ltuid_v2", "123456789"); ("ltoken_v2", "v2_token");
      ("cookie_token_v2", "v2_cookie"); ("account_mid_v2", "mid") ].

Definition sample_window : gmap string string :=
  list_to_map [ ("last_x", "250"); ("last_y", "80") ].

Definition sample_notes : notes :=
  {| current_resin := 30; max_resin := 160; claimed_commission_reward := true;
     current_realm_currency := 1200 |}.

Definition sample_client : Z → response := λ _, Notes sample_notes.


(** The widget right after startup with [sample_settings], and after its
    first refresh. *)
Definition sample_started : app := (main (fresh (Some sample_settings))).2.

Definition sample_refreshed : app := (dispatch (FutureReady sample_client) sample_started).2.

(** Variants of a settings file: an option given another value, an option
    left out, a section left out. *)
Definition override (section key value : string) (file : ini_file) : ini_file :=
  (λ s : string * list (string * string),
     (s.1, if decide (s.1 = section)
           then (λ l : string * string, (l.1, if decide (l.1 = key) then value else l.2)) <$> s.2
           else s.2)) <$> file.

Definition without_option (section key : string) (file : ini_file) : ini_file :=
  (λ s : string * list (string * string),
     (s.1, if decide (s.1 = section)
           then filter (λ l : string * string, l.1 ≠ key) s.2
           else s.2)) <$> file.


(** An account id that is not a number, with the notes shown and hidden. *)
Definition settings_bad_uid : ini_file := override "Auth" "ltuid_v2" "abc" sample_settings.

Definition settings_bad_uid_hidden : ini_file :=
  override "Display" "show_notes" "0" settings_bad_uid.

Definition bad_uid_started : app := (main (fresh (Some settings_bad_uid))).2.

Definition bad_uid_hidden_started : app := (main (fresh (Some settings_bad_uid_hidden))).2.

(** The four credentials that the Auth section must give. *)
Definition auth_fields : list string :=
  ["ltuid_v2"; "ltoken_v2"; "cookie_token_v2"; "account_mid_v2"].

Definition auth_warning : string := "Authentication details are missing in settings.ini".

Definition conflict_warning : string :=
  "Both 'word_wrap' and 'fit_window_to_text' cannot be enabled simultaneously.".






Definition settings_without_position : ini_file :=
  without_option "Window" "last_x" (without_option "Window" "last_y" sample_settings).

Definition started_without_position : app :=
  (main (fresh (Some settings_without_position))).2.


(** The position of the window is in the settings, in memory and in the
    file, and reads back as the same integers. *)
Definition position_stored (st : app) : Prop :=
  let p := position st in
  Ini.section_get (config st) "Window" "last_x" = Ok (Some (str_int p.1)) ∧
  Ini.section_get (config st) "Window" "last_y" = Ok (Some (str_int p.2)) ∧
  settings_ini st = Some (Ini.write (config st)) ∧
  Ini.read (settings_ini st) = Ok (config st) ∧
  setting (settings_ini st) "Window" "last_x" = Ok (Some (str_int p.1)) ∧
  setting (settings_ini st) "Window" "last_y" = Ok (Some (str_int p.2)) ∧
  int (str_int p.1) = Ok p.1 ∧ int (str_int p.2) = Ok p.2.

(** Every option other than [last_x] and [last_y] of section [Window]
    reads the same in [after] as in [before]. *)
Definition other_settings_kept (before after : ConfigParser) : Prop :=
  Ini.defaults after = Ini.defaults before ∧
  (∀ section, section ≠ "Window" →
     Ini.sections after !! section = Ini.sections before !! section) ∧
  (∀ section key,
     (section, key) ≠ ("Window", "last_x") → (section, key) ≠ ("Window", "last_y") →
     Ini.section_get after section key = Ini.section_get before section key).

(** The widget while the window is being dragged: the left button was
    pressed at (5, 5). *)
Definition sample_dragging : app := (dispatch (MousePress LeftButton (5, 5)) sample_started).2.

(** Between two states the file was left alone, along with the settings
    in memory, or it now holds the settings in memory. *)
Definition file_current (st st' : app) : Prop :=
  (settings_ini st' = settings_ini st ∧ config st' = config st)
  ∨ settings_ini st' = Some (Ini.write (config st')).


(** ** Further observations *)

(** The calls made by the render layer: items taken out, widgets scheduled
    for deletion, rows added, the window fitted. *)
Definition render_call (c : call) : bool :=
  match c with
  | TakeAt | DeleteLater _ | AddLayout _ | AdjustSize => true
  | _ => false
  end.

(** The state [update_ui] leaves when its first [scaledToHeight] raises:
    the layout cleared and one icon label made. *)
Definition cleared (st : app) : app :=
  set_log (log st ++ clear_layout (content_layout st))
    (set_content_layout [] (set_next_id (S (next_id st)) st)).


(** Settings without a font size. *)
Definition settings_without_font_size : ini_file :=
  without_option "Display" "font_size" sample_settings.

Definition started_without_font_size : app :=
  (main (fresh (Some settings_without_font_size))).2.

(** The calls that set the window up at startup. *)
Definition chrome_call (c : call) : bool :=
  match c with
  | SetWindowFlags _ | SetTranslucentBackground | SetWindowOpacity _ | Move _ _
  | SetContentsMargins _ | SetCookies _ _ _ _ | SetStyleSheet _ _ _ | SetBackgroundImage _
  | SetFrameStyleSheet _ | SetFixedSize _ _ | Resize _ _ | Connect | EnsureFuture
  | TimerStart _ => true
  | _ => false
  end.

(** An outcome of code that is not run by Qt and does not call
    [sys.exit]: a value or a Python exception. *)
Definition plain {A} (o : outcome A) : Prop :=
  match o with
  | Ok _ | Raise _ => True
  | SysExit | Abort _ => False
  end.

(** A run whatever its outcome: [any_post m st Q] says that [Q] holds of
    the outcome and the final state of [m] started in [st]. *)
Definition any_post {A} (m : M A) (st : app) (Q : outcome A → app → Prop) : Prop :=
  Q (m st).1 (m st).2.

(** The outcome of a failed statement, seen from the statements after
    it. *)
Definition failed {A B} (o : outcome A) : outcome B :=
  match o with
  | Ok _ => SysExit
  | Raise e => Raise e
  | SysExit => SysExit
  | Abort e => Abort e
  end.

(** The log [l'] extends [l] by calls that satisfy [P]. *)
Definition extends (P : call → bool) (l l' : list call) : Prop :=
  ∃ cs, l' = l ++ cs ∧ Forall (λ c, P c = true) cs.

(** The object ids scheduled for deletion, in the order of the calls, and
    the ids of the widgets in the content layout, in the order of the
    layout. *)
Definition deleted (l : list call) : list nat :=
  omap (λ c, match c with DeleteLater id => Some id | _ => None end) l.

Definition layout_ids (st : app) : list nat := wid <$> layout_widgets (content_layout st).

(** The number of items of a layout, those of nested layouts included. *)
Fixpoint items_of (item : layout_item) : nat :=
  match item with
  | WidgetItem _ _ => O
  | LayoutItem items =>
      (fix count (l : list layout_item) : nat :=
         match l with
         | [] => O
         | item' :: l' => S (items_of item' + count l')%nat
         end) items
  end.

Definition taken (l : list call) : nat :=
  List.length (omap (λ c, match c with TakeAt => Some tt | _ => None end) l).

(** Every object made so far is in the content layout or scheduled for
    deletion, once: the ids deleted, then the ids in the layout, are the
    ids handed out, in order.  The layout is empty or holds the three rows
    of one call of [update_ui]. *)
Definition accounted (st : app) : Prop :=
  deleted (log st) ++ layout_ids st = seq 0 (next_id st) ∧
  (content_layout st = [] ∨ ∃ id h a b c, content_layout st = rows_of id h a b c).

(** A window flag is set when all its bits are. *)
Definition has_flag (flags flag : Z) : bool := bool_decide (Z.land flags flag = flag).

(** What [build_window] makes of the options [show_in_taskbar],
    [always_on_top] and [draggable]. *)
Definition outfitted (d : gmap string string) (st st' : app) : Prop :=
  ∃ t o v,
    d !! "show_in_taskbar" = Some t ∧ d !! "always_on_top" = Some o ∧
    d !! "draggable" = Some v ∧
    press_handler st' = bool_from_str v || press_handler st ∧
    has_flag (window_flags st') Qt_Window = true ∧
    has_flag (window_flags st') Qt_FramelessWindowHint = negb (bool_from_str t) ∧
    has_flag (window_flags st') Qt_Tool = negb (bool_from_str t) ∧
    has_flag (window_flags st') Qt_WindowStaysOnTopHint = bool_from_str o ∧
    last (omap (λ c, match c with SetWindowFlags f => Some f | _ => None end) (log st'))
    = Some (window_flags st').

(** A drag: the left button pressed at [p], then the pointer moving
    through the points [gs]. *)
Definition drag (p : Z * Z) (gs : list (Z * Z)) : list event :=
  MousePress LeftButton p :: (MouseMove <$> gs).

(** A press that does not start a drag. *)
Definition is_other_press (ev : event) : bool :=
  match ev with
  | MousePress RightButton _ | MousePress MidButton _ => true
  | _ => false
  end.

Definition is_press (ev : event) : bool :=
  match ev with
  | MousePress _ _ => true
  | _ => false
  end.

(** Settings with dragging switched off. *)
Definition settings_not_draggable : ini_file := override "Display" "draggable" "0" sample_settings.

Definition started_not_draggable : app := (main (fresh (Some settings_not_draggable))).2.

(** An option is given, and a conversion succeeds. *)
Definition has (proxy : gmap string string) (key : string) : Prop := is_Some (proxy !! key).

Definition is_ok {A} (o : outcome A) : Prop := ∃ a, o = Ok a.

(** What [build_window] needs of the three sections. *)
Definition buildable (d a w : gmap string string) : Prop :=
  has d "show_in_taskbar" ∧
  (∃ v, d !! "transparency" = Some v ∧ is_ok (float v)) ∧
  has d "always_on_top" ∧
  is_ok (Ini.getint_or w "last_x" 100) ∧ is_ok (Ini.getint_or w "last_y" 100) ∧
  is_ok (Ini.getint_or d "margins" 10) ∧
  has a "ltuid_v2" ∧ has a "ltoken_v2" ∧ has a "cookie_token_v2" ∧ has a "account_mid_v2" ∧
  is_ok (Ini.getint d "font_size") ∧ has d "font_color" ∧ has d "show_background" ∧
  has d "background_color" ∧
  is_ok (Ini.getint_or d "corner_radius" 0) ∧
  has d "allow_resizing" ∧ has d "draggable".

(** What the two checks of [initUI] need. *)
Definition credentials_given (a : gmap string string) : Prop :=
  ∀ key, key ∈ auth_fields → ∃ value, a !! key = Some value ∧ value ≠ "".

Definition flags_exclusive (d : gmap string string) : Prop :=
  ∃ ww fw, d !! "word_wrap" = Some ww ∧ d !! "fit_window_to_text" = Some fw ∧
           ¬ (ww = "1" ∧ fw = "1").

(** The settings files that start the widget. *)
Definition startable (file : option ini_file) : Prop :=
  ∃ parser d a w,
    Ini.read file = Ok parser ∧
    Ini.getitem parser "Display" = Ok d ∧
    Ini.getitem parser "Auth" = Ok a ∧
    Ini.getitem parser "Window" = Ok w ∧
    credentials_given a ∧ flags_exclusive d ∧ buildable d a w.

(** A run that ends normally: [ok_pre m st Q] says that [m] started in
    [st] ends normally and that [Q] holds of its result and final state. *)
Definition ok_pre {A} (m : M A) (st : app) (Q : A → app → Prop) : Prop :=
  ∃ a st', m st = (Ok a, st') ∧ Q a st'.


(** ** [ClickableLabel] *)

(** What a press of a mouse button on a label does: the URL is opened, or
    the event is handed to [QLabel]. *)
Inductive press_effect :=
| OpenUrl (u : string)
| SuperMousePress.

(** [setUrl]: [self.url = QUrl(url)]. *)
Definition setUrl (u : string) (w : widget) : widget :=
  {| wid := wid w; clickable := clickable w; text := text w; pixmap := pixmap w;
     url := Some u |}.

(** [ClickableLabel.mousePressEvent]: [self.url] is [None] or a [QUrl]
    object, which is true. *)
Definition ClickableLabel_mousePressEvent (w : widget) (b : button) : press_effect :=
  match b, url w with
  | LeftButton, Some u => OpenUrl u
  | _, _ => SuperMousePress
  end.

(** A press on a label of a row: only a [ClickableLabel] has the handler
    above. *)
Definition label_mousePressEvent (w : widget) (b : button) : press_effect :=
  if clickable w then ClickableLabel_mousePressEvent w b else SuperMousePress.

(** ** [BackgroundFrame] *)

(** The files as the frame finds them: whether a path exists
    ([os.path.exists]) and whether [QPixmap] can load it; a pixmap that
    could not be loaded is null. *)
Record files := {
  path_exists : string → bool;
  loadable : string → bool
}.

(** [self.background_image]: [None], or the pixmap made from a path, with
    whether it is null. *)
Definition frame : Type := option (string * bool).

Definition setBackgroundImage (fs : files) (image_path : option string) : frame :=
  match image_path with
  | Some path =>
      if negb (bool_decide (path = EmptyString)) && path_exists fs path
      then Some (path, negb (loadable fs path))
      else None
  | None => None
  end.

Inductive painted :=
| DrawPixmap (path : string)
| FillRect.

Definition paintEvent (f : frame) : painted :=
  match f with
  | Some (path, isNull) => if negb isNull then DrawPixmap path else FillRect
  | None => FillRect
  end.

(** The frame after the calls of a log, and the background colour its
    style sheet was last given. *)
Definition frame_of (fs : files) (l : list call) : frame :=
  fold_left (λ f c, match c with
                    | SetBackgroundImage image_path => setBackgroundImage fs image_path
                    | _ => f
                    end) l None.

Definition frame_color (l : list call) : option string :=
  fold_left (λ o c, match c with
                    | SetFrameStyleSheet color => Some color
                    | _ => o
                    end) l None.

(** What [build_window] makes of the background options. *)
Definition backed (fs : files) (d : gmap string string) (st' : app) : Prop :=
  ∃ sb color,
    d !! "show_background" = Some sb ∧ d !! "background_color" = Some color ∧
    let image := Ini.get_or d "background_image" "" in
    let shown := bool_from_str sb && negb (bool_decide (image = EmptyString)) in
    frame_of fs (log st') = (if shown then setBackgroundImage fs (Some image) else None) ∧
    frame_color (log st') = (if shown then None else Some color).

(** Files among which the image of [settings_with_image] is missing. *)
Definition settings_with_image : ini_file :=
  override "Display" "background_image" "bg.png" sample_settings.

Definition no_files : files := {| path_exists := λ _, false; loadable := λ _, false |}.

(** The calls made while events are handled. *)
Definition event_call (c : call) : bool :=
  match c with
  | GetNotes _ | Emit _ _ _ | TakeAt | DeleteLater _ | AddLayout _ | AdjustSize
  | Move _ _ | WriteSettings _ | Accept => true
  | _ => false
  end.

Definition started_with_image : app := (main (fresh (Some settings_with_image))).2.

(** Settings with the notes hidden. *)
Definition settings_hidden : ini_file := override "Display" "show_notes" "0" sample_settings.

Definition started_hidden : app := (main (fresh (Some settings_hidden))).2.

(** ** Lemmas on the statements *)

(** Running a statement on a state given by its fields: the combinators,
    the field updates and the projections are unfolded, nothing else. *)
Declare Reduction mred :=
  cbv [bind ret lift raise gets modify do_call sys_exit show_warning
       try_except try_except_genshin called_by_qt
       setWindowFlags move new_object addLayout
       set_config set_settings_ini set_log set_window_flags set_position set_content_layout
       set_styles set_word_wrap set_fit_window_to_text set_press_handler set_connected
       set_futures set_timer set_oldPos set_next_id
       config settings_ini log window_flags position content_layout styles word_wrap
       fit_window_to_text press_handler connected futures timer oldPos next_id
       font_size font_color show_background background_color background_image
       fst snd].

Ltac mrun :=
  match goal with |- ?G => let G' := eval mred in G in change G' end.

Ltac mrun_all :=
  repeat match goal with
         | H : ?T |- _ => let T' := eval mred in T in progress (change T' in H)
         end;
  mrun.

Lemma do_calls_log (cs : list call) (st : app) :
  do_calls cs st = (Ok tt, set_log (log st ++ cs) st).
Proof.
  revert st. induction cs as [|c cs IH]; intros st.
  - destruct st. cbn [do_calls]. mrun. by rewrite app_nil_r.
  - cbn [do_calls]. mrun. rewrite IH. destruct st. mrun. by rewrite <- app_assoc.
Qed.

Lemma update_ui_ok (h : Z) (a b c : string) (st : app) :
  font_size (styles st) = Some h →
  update_ui a b c st = (Ok tt, refreshed h a b c st).
Proof.
  intros Hfont. unfold update_ui, scaledToHeight. mrun.
  rewrite do_calls_log. destruct st as [? ? ? ? ? ? [size ? ? ? ?] ? fit ? ? ? ? ? ?].
  mrun_all. subst size. unfold refreshed, rows_of. mrun.
  destruct fit; cbn [fmap list_fmap Nat.add];
    repeat (rewrite <- ?app_assoc; cbn [List.app]); reflexivity.
Qed.

Lemma layout_item_nested_ind (P : layout_item → Prop) :
  (∀ w stretch, P (WidgetItem w stretch)) →
  (∀ items, Forall P items → P (LayoutItem items)) →
  ∀ item, P item.
Proof.
  intros Hwidget Hlayout. fix IH 1. intros [w stretch|items].
  - apply Hwidget.
  - apply Hlayout. induction items as [|item items IHitems]; constructor.
    + apply IH.
    + apply IHitems.
Qed.

Lemma clear_item_calls (item : layout_item) :
  Forall (λ c, clearing_call c = true) (clear_item item).
Proof.
  induction item as [w stretch|items IH] using layout_item_nested_ind.
  - by repeat constructor.
  - induction IH as [|item items Hitem _ IHitems]; [constructor|].
    cbn [clear_item] in *. constructor; [done|].
    apply Forall_app. split; [exact Hitem | exact IHitems].
Qed.


Lemma omap_clearing {A} (f : call → option A) (cs : list call) :
  (∀ c, clearing_call c = true → f c = None) →
  Forall (λ c, clearing_call c = true) cs → omap f cs = [].
Proof.
  intros Hf. induction 1 as [|c cs Hc _ IH]; [done|].
  cbn. by rewrite (Hf c Hc).
Qed.

Lemma api_calls_clear (layout : list layout_item) : api_calls (clear_layout layout) = [].
Proof.
  apply omap_clearing; [|apply clear_item_calls]. by intros [].
Qed.

Lemma emitted_clear (layout : list layout_item) : emitted (clear_layout layout) = [].
Proof.
  apply omap_clearing; [|apply clear_item_calls]. by intros [].
Qed.

(** The slot run by [emit] never hands a Python exception back. *)
Lemma emit_not_raise (a b c : string) (st : app) (e : exn) (st' : app) :
  emit a b c st ≠ (Raise e, st').
Proof.
  unfold emit. destruct st as [? ? ? ? ? ? ? ? ? ? conn ? ? ? ?]. mrun.
  destruct conn; [|done]. by destruct (update_ui a b c _) as [[]].
Qed.

Lemma emit_ok (h : Z) (a b c : string) (st : app) :
  connected st = true →
  font_size (styles st) = Some h →
  emit a b c st = (Ok tt, refreshed h a b c (set_log (log st ++ [Emit a b c]) st)).
Proof.
  intros Hconn Hfont. unfold emit.
  pose proof (update_ui_ok h a b c (set_log (log st ++ [Emit a b c]) st)) as Hui.
  destruct st as [? ? ? ? ? ? ? ? ? ? conn ? ? ? ?]. mrun_all. subst conn.
  by rewrite (Hui Hfont).
Qed.

Section update_info_cases.
Variables (st : app) (client : Z → response).
Variables (auth_config display_config : gmap string string) (v : string).
Hypothesis Hauth : Ini.getitem (config st) "Auth" = Ok auth_config.
Hypothesis Hltuid : auth_config !! "ltuid_v2" = Some v.

Lemma update_info_bad_uid (e : exn) :
  int v = Raise e →
  update_info client st = emit ("Error fetching data: " +:+ str_exn e) "" "" st.
Proof.
  intros Hint. unfold update_info, Ini.getitem_option, try_except, bind, gets, lift.
  by rewrite Hauth, Hltuid, Hint.
Qed.

Variable uid : Z.
Hypothesis Huid : int v = Ok uid.
Hypothesis Hdisplay : Ini.getitem (config st) "Display" = Ok display_config.

Lemma update_info_skip :
  bool_from_str (Ini.get_or display_config "show_notes" "0") = false →
  update_info client st = (Ok tt, st).
Proof.
  intros Hshow. unfold update_info, Ini.getitem_option, try_except, bind, gets, lift.
  by rewrite Hauth, Hltuid, Huid, Hdisplay, Hshow.
Qed.

Lemma update_info_fetch :
  bool_from_str (Ini.get_or display_config "show_notes" "0") = true →
  update_info client st =
  let st1 := set_log (log st ++ [GetNotes uid]) st in
  match client uid with
  | Notes n =>
      emit ("Resin: " +:+ str_int (current_resin n) +:+ "/" +:+ str_int (max_resin n))
           ("Daily Reward Claimed: " +:+ str_bool (claimed_commission_reward n))
           ("Realm Currency: " +:+ str_int (current_realm_currency n) +:+ "/2400") st1
  | Fails (GenshinException msg) => emit ("Error fetching notes: " +:+ msg) "" "" st1
  | Fails e => emit ("Error fetching data: " +:+ str_exn e) "" "" st1
  end.
Proof.
  intros Hshow.
  unfold update_info, Ini.getitem_option, try_except, try_except_genshin, get_notes,
    bind, gets, lift, do_call, modify, raise, ret.
  rewrite Hauth, Hltuid, Huid, Hdisplay, Hshow. cbv zeta.
  destruct (client uid) as [n|e].
  - set (r := emit _ _ _ _).
    pose proof (emit_not_raise _ _ _ _ : ∀ e st', r ≠ (Raise e, st')) as Hne.
    destruct r as [[| e | |] st']; try done. by destruct (Hne e st').
  - unfold lift.
    destruct e; try done.
    set (r := emit _ _ _ _).
    pose proof (emit_not_raise _ _ _ _ : ∀ e st', r ≠ (Raise e, st')) as Hne.
    destruct r as [[| e | |] st']; try done. by destruct (Hne e st').
Qed.
End update_info_cases.

Lemma ok_bind {A B} (m : M A) (k : A → M B) (st : app) (Q : B → app → Prop) :
  ok_post m st (λ a st1, ok_post (k a) st1 Q) → ok_post (bind m k) st Q.
Proof.
  unfold ok_post, bind. intros Hm b st' Hrun.
  destruct (m st) as [[a | e | | e] st1] eqn:E; try discriminate Hrun.
  by apply (Hm a st1).
Qed.

Lemma ok_lift {A} (o : outcome A) (st : app) (Q : A → app → Prop) :
  (∀ a, o = Ok a → Q a st) → ok_post (lift o) st Q.
Proof. unfold ok_post, lift. intros HQ a st' [= -> <-]. by apply HQ. Qed.

Lemma ok_ret {A} (a : A) (st : app) (Q : A → app → Prop) :
  Q a st → ok_post (ret a) st Q.
Proof. unfold ok_post, ret. by intros HQ a' st' [= <- <-]. Qed.

Lemma ok_gets {A} (f : app → A) (st : app) (Q : A → app → Prop) :
  Q (f st) st → ok_post (gets f) st Q.
Proof. unfold ok_post, gets. by intros HQ a' st' [= <- <-]. Qed.

Lemma ok_modify (f : app → app) (st : app) (Q : unit → app → Prop) :
  Q tt (f st) → ok_post (modify f) st Q.
Proof. unfold ok_post, modify. by intros HQ a' st' [= <- <-]. Qed.

Lemma ok_sys_exit {A} (st : app) (Q : A → app → Prop) : ok_post sys_exit st Q.
Proof. by intros a st'. Qed.

Ltac mstep :=
  lazymatch goal with
  | |- ok_post (bind _ _) _ _ => apply ok_bind
  | |- ok_post (lift _) _ _ => apply ok_lift; intros ? ?
  | |- ok_post (gets _) _ _ => apply ok_gets
  | |- ok_post (modify _) _ _ => apply ok_modify
  | |- ok_post (ret _) _ _ => apply ok_ret
  | |- ok_post (do_call _) _ _ => apply ok_modify
  | |- ok_post sys_exit _ _ => apply ok_sys_exit
  | |- ok_post (if ?b then _ else _) _ _ => destruct b eqn:?
  | |- ok_post (setWindowFlags _) _ _ => unfold setWindowFlags
  | |- ok_post (move _ _) _ _ => unfold move
  | |- ok_post (show_warning _) _ _ => unfold show_warning
  end.

Ltac mfields :=
  cbn [set_config set_settings_ini set_log set_window_flags set_position set_content_layout
       set_styles set_word_wrap set_fit_window_to_text set_press_handler set_connected
       set_futures set_timer set_oldPos set_next_id
       config settings_ini log window_flags position content_layout styles word_wrap
       fit_window_to_text press_handler connected futures timer oldPos next_id
       font_size font_color show_background background_color background_image
       fst snd].

Ltac msteps := repeat (mstep; cbv beta; mfields).

Lemma build_window_post (d a w : gmap string string) (flags : bool * bool) (st : app) :
  ok_post (build_window d a w flags) st (λ _ st', built d w flags st st').
Proof.
  unfold build_window, setup_window, restore_position, setup_layout, set_cookies,
    setup_styles, apply_styles, setup_events.
  msteps.
  all: unfold built; mfields; done.
Qed.

Lemma build_window_ok (d a w : gmap string string) (flags : bool * bool) (st st' : app) :
  build_window d a w flags st = (Ok tt, st') → built d w flags st st'.
Proof. apply build_window_post. Qed.

(** ** configparser: writing then reading, and the frame of [set] *)

Lemma read_options_fresh (section : string) (lines : list (string * string))
    (options : gmap string string) :
  NoDup lines.*1 →
  (∀ key, key ∈ lines.*1 → options !! key = None) →
  Ini.read_options section lines options = Ok (list_to_map lines ∪ options).
Proof.
  revert options. induction lines as [|[key value] lines IH]; intros options Hnodup Hfresh.
  - cbn. by rewrite (left_id_L ∅ (∪)).
  - apply NoDup_cons in Hnodup as [Hkey Hnodup]. cbn [Ini.read_options].
    rewrite (Hfresh key) by (cbn; left).
    rewrite IH; [|done|].
    + cbn [list_to_map foldr uncurry fst snd].
      rewrite <- insert_union_r by (by apply not_elem_of_list_to_map_1).
      by rewrite insert_union_l.
    + intros key' Hin. rewrite lookup_insert_ne.
      * apply Hfresh. cbn. by right.
      * by intros ->.
Qed.

Lemma read_options_map_to_list (section : string) (options : gmap string string) :
  Ini.read_options section (map_to_list options) ∅ = Ok options.
Proof.
  rewrite read_options_fresh.
  - by rewrite list_to_map_to_list, (right_id_L ∅ (∪)).
  - apply NoDup_fst_map_to_list.
  - intros. apply lookup_empty.
Qed.

Lemma read_sections_fresh (secs : list (string * gmap string string))
    (parser : Ini.ConfigParser) :
  NoDup secs.*1 →
  Ini.default_section ∉ secs.*1 →
  (∀ name, name ∈ secs.*1 → Ini.sections parser !! name = None) →
  Ini.read_sections (prod_map id map_to_list <$> secs) parser =
  Ok {| Ini.defaults := Ini.defaults parser;
        Ini.sections := list_to_map secs ∪ Ini.sections parser |}.
Proof.
  revert parser. induction secs as [|[name options] secs IH]; intros parser Hnodup Hdef Hfresh.
  - cbn. rewrite (left_id_L ∅ (∪)). by destruct parser.
  - apply NoDup_cons in Hnodup as [Hname Hnodup].
    apply not_elem_of_cons in Hdef as [Hne Hdef]. cbn in Hne.
    cbn [fmap list_fmap prod_map fst snd id Ini.read_sections].
    rewrite decide_False by done.
    rewrite (Hfresh name) by (cbn; left).
    rewrite read_options_map_to_list, IH; [|done|done|].
    + cbn [Ini.defaults Ini.sections list_to_map foldr uncurry fst snd].
      rewrite <- insert_union_r by (by apply not_elem_of_list_to_map_1).
      by rewrite insert_union_l.
    + cbn [Ini.sections]. intros name' Hin. rewrite lookup_insert_ne.
      * apply Hfresh. cbn. by right.
      * by intros ->.
Qed.

(** Reading back what [write] wrote gives the parser again. *)
Lemma read_write (parser : Ini.ConfigParser) :
  Ini.sections parser !! Ini.default_section = None →
  Ini.read (Some (Ini.write parser)) = Ok parser.
Proof.
  intros Hdef. unfold Ini.read, Ini.write.
  assert (Hsecs : ∀ p0 : Ini.ConfigParser, Ini.sections p0 = ∅ →
    Ini.read_sections (prod_map id map_to_list <$> map_to_list (Ini.sections parser)) p0 =
    Ok {| Ini.defaults := Ini.defaults p0; Ini.sections := Ini.sections parser |}).
  { intros p0 Hp0. rewrite read_sections_fresh.
    - by rewrite list_to_map_to_list, Hp0, (right_id_L ∅ (∪)).
    - apply NoDup_fst_map_to_list.
    - intros ([name options] & Hname & Hin)%list_elem_of_fmap_1. cbn in Hname. subst name.
      apply elem_of_map_to_list in Hin. congruence.
    - intros. rewrite Hp0. apply lookup_empty. }
  destruct (decide (Ini.defaults parser = ∅)) as [Hempty|Hnonempty].
  - cbn [List.app]. rewrite Hsecs by done. cbn. rewrite <- Hempty. by destruct parser.
  - cbn [List.app Ini.read_sections]. rewrite decide_True by done.
    cbn [Ini.defaults Ini.empty]. rewrite read_options_map_to_list.
    rewrite Hsecs by done. by destruct parser.
Qed.

(** ** [int] reads back what [str] prints *)

Lemma append_cons (c : ascii) (s t : string) : String c s +:+ t = String c (s +:+ t).
Proof. reflexivity. Qed.

Lemma append_nil_l (t : string) : "" +:+ t = t.
Proof. reflexivity. Qed.

Lemma append_empty_r (s : string) : s +:+ "" = s.
Proof. induction s as [|c s IH]; [done|]. by rewrite append_cons, IH. Qed.

Lemma append_assoc (s1 s2 s3 : string) : (s1 +:+ s2) +:+ s3 = s1 +:+ (s2 +:+ s3).
Proof.
  induction s1 as [|c s1 IH]; [done|]. by rewrite !append_cons, IH.
Qed.

Lemma pretty_N_char_digit (d : N) :
  (d < 10)%N → is_digit (pretty_N_char d) = true ∧ digit_value (pretty_N_char d) = Z.of_N d.
Proof.
  intros Hd.
  assert (d = 0 ∨ d = 1 ∨ d = 2 ∨ d = 3 ∨ d = 4 ∨ d = 5 ∨ d = 6 ∨ d = 7 ∨ d = 8 ∨ d = 9)%N
    as Hcases by lia.
  repeat (destruct Hcases as [->|Hcases]; [by split|]). by subst.
Qed.

Lemma int_digits_pretty (x : N) (s : string) :
  ∃ pre shift, pretty_N_go x s = pre +:+ s ∧
    ((∃ c pre', pre = String c pre' ∧ is_digit c = true) ∨ (x = 0%N ∧ pre = "")) ∧
    ∀ rest acc, int_digits (pre +:+ rest) false acc
                = int_digits rest false (acc * shift + Z.of_N x).
Proof.
  revert s. induction (N.lt_wf_0 x) as [x _ IH]; intros s.
  assert (x = 0 ∨ 0 < x)%N as [->|Hpos] by lia.
  - exists "", 1. rewrite pretty_N_go_0. split; [done|]. split; [by right|].
    intros rest acc. rewrite append_nil_l. f_equal. lia.
  - rewrite pretty_N_go_step by done.
    destruct (pretty_N_char_digit (x `mod` 10)) as [Hdigit Hvalue].
    { by apply N.mod_lt. }
    destruct (IH (x `div` 10)%N (N.div_lt x 10 Hpos eq_refl)
                 (String (pretty_N_char (x `mod` 10)) s))
      as (pre & shift & Hpre & Hhead & Hread).
    exists (pre +:+ String (pretty_N_char (x `mod` 10)) ""), (shift * 10).
    split; [by rewrite Hpre, append_assoc|]. split.
    + left. destruct Hhead as [(c & pre' & -> & Hc)|[_ ->]].
      * by exists c, (pre' +:+ String (pretty_N_char (x `mod` 10)) "").
      * by exists (pretty_N_char (x `mod` 10)), "".
    + intros rest acc. rewrite append_assoc, Hread, append_cons, append_nil_l.
      cbn [int_digits]. rewrite Hdigit, Hvalue. f_equal.
      pose proof (N.div_mod x 10 ltac:(done)) as Hdm. lia.
Qed.

Lemma int_literal_digit (c : ascii) (s : string) :
  is_digit c = true →
  int_literal (String c s) =
  match int_digits (String c s) false 0 with
  | Some (n, rest) => if all_space rest then Some (1 * n) else None
  | None => None
  end.
Proof.
  destruct c as [[] [] [] [] [] [] [] []]; intros Hc; try discriminate Hc; reflexivity.
Qed.

Lemma int_literal_minus (c : ascii) (s : string) :
  is_digit c = true →
  int_literal (String "-" (String c s)) =
  match int_digits (String c s) false 0 with
  | Some (n, rest) => if all_space rest then Some (-1 * n) else None
  | None => None
  end.
Proof.
  destruct c as [[] [] [] [] [] [] [] []]; intros Hc; try discriminate Hc; reflexivity.
Qed.

Lemma int_literal_pretty_pos (p : positive) :
  ∃ c s, pretty_N_go (N.pos p) "" = String c s ∧ is_digit c = true ∧
         int_digits (String c s) false 0 = Some (Z.pos p, "").
Proof.
  destruct (int_digits_pretty (N.pos p) "") as (pre & shift & Hpre & Hhead & Hread).
  rewrite append_empty_r in Hpre.
  destruct Hhead as [(c & pre' & -> & Hc)|[? _]]; [|done].
  exists c, pre'. split; [done|]. split; [done|].
  specialize (Hread "" 0). rewrite append_empty_r in Hread. by rewrite Hread.
Qed.

(** [int(str(z))] is [z]. *)
Lemma int_str_int (z : Z) : int (str_int z) = Ok z.
Proof.
  unfold int, str_int.
  destruct z as [|p|p]; [done|..];
    destruct (int_literal_pretty_pos p) as (c & s & Hpretty & Hc & Hdigits).
  - unfold pretty, pretty_Z, pretty, pretty_positive, pretty, pretty_N.
    rewrite decide_False by done. rewrite Hpretty, int_literal_digit, Hdigits by done.
    cbn [all_space]. by rewrite Z.mul_1_l.
  - unfold pretty, pretty_Z, pretty, pretty_positive, pretty, pretty_N.
    rewrite decide_False by done. rewrite Hpretty, append_cons, append_nil_l.
    rewrite int_literal_minus, Hdigits by done. cbn [all_space]. do 2 f_equal.
Qed.

(** ** Saving the position *)

Lemma set_window (parser : Ini.ConfigParser) (w : gmap string string) (key value : string) :
  Ini.sections parser !! "Window" = Some w →
  Ini.set parser "Window" key value =
  Ok {| Ini.defaults := Ini.defaults parser;
        Ini.sections := <["Window" := <[key := value]> w]> (Ini.sections parser) |}.
Proof.
  intros Hw. unfold Ini.set. rewrite decide_False by (by intros [|]). by rewrite Hw.
Qed.

Lemma save_position_ok (w : gmap string string) (st : app) :
  Ini.sections (config st) !! "Window" = Some w →
  save_position st = (Ok tt, saved w st).
Proof.
  intros Hw. unfold save_position, saved, with_position.
  destruct st as [parser ? ? ? ? ? ? ? ? ? ? ? ? ? ?]. mrun_all.
  rewrite (set_window _ w) by done.
  erewrite set_window by (cbn; apply lookup_insert_eq).
  cbn [Ini.defaults Ini.sections]. by rewrite insert_insert_eq.
Qed.

Lemma mouseMoveEvent_ok (w : gmap string string) (old globalPos : Z * Z) (st : app) :
  oldPos st = Some old →
  Ini.sections (config st) !! "Window" = Some w →
  mouseMoveEvent globalPos st =
  (Ok tt, saved w (set_oldPos (Some globalPos)
                     (moved ((position st).1 + (globalPos.1 - old.1))
                            ((position st).2 + (globalPos.2 - old.2)) st))).
Proof.
  intros Hold Hw. unfold mouseMoveEvent, moved.
  pose proof (save_position_ok w) as Hsave.
  destruct st as [parser ? ? ? ? ? ? ? ? ? ? ? ? o ?]. mrun_all. subst o.
  by rewrite Hsave.
Qed.

Lemma closeEvent_ok (w : gmap string string) (st : app) :
  Ini.sections (config st) !! "Window" = Some w →
  closeEvent st = (Ok tt, set_log (log (saved w st) ++ [Accept]) (saved w st)).
Proof.
  intros Hw. unfold closeEvent. mrun. by rewrite (save_position_ok w).
Qed.

(** ** Startup *)

Lemma ok_post_mono {A} (m : M A) (st : app) (Q Q' : A → app → Prop) :
  ok_post m st Q → (∀ a st', Q a st' → Q' a st') → ok_post m st Q'.
Proof. intros Hm HQ a st' Hrun. by apply HQ, Hm. Qed.

Lemma main_ok (file : option ini_file) (st : app) :
  main (fresh file) = (Ok tt, st) → started file st.
Proof.
  revert st. cut (ok_post main (fresh file) (λ _ st, started file st)).
  { intros H st. apply H. }
  unfold main, initUI, load_settings, check_auth, check_exclusive.
  repeat (mstep; cbv beta iota; mfields).
  all: eapply ok_post_mono; [apply build_window_post|].
  all: intros [] st0 Hbuilt; cbv beta; mstep.
  all: by eexists _, _, _, _, _, st0.
Qed.

Lemma read_sections_default (file : ini_file) (parser parser' : Ini.ConfigParser) :
  Ini.read_sections file parser = Ok parser' →
  Ini.sections parser !! Ini.default_section = None →
  Ini.sections parser' !! Ini.default_section = None.
Proof.
  revert parser. induction file as [|[name lines] file IH]; intros parser Hread Hdef.
  - by injection Hread as <-.
  - cbn [Ini.read_sections] in Hread. destruct (decide (name = Ini.default_section)) as [->|Hne].
    + destruct (Ini.read_options _ _ _) as [options| | |]; try discriminate Hread.
      by apply IH in Hread.
    + destruct (Ini.sections parser !! name); [discriminate Hread|].
      destruct (Ini.read_options _ _ _) as [options| | |]; try discriminate Hread.
      apply IH in Hread; [done|]. cbn. by rewrite lookup_insert_ne.
Qed.

Lemma read_default (file : option ini_file) (parser : Ini.ConfigParser) :
  Ini.read file = Ok parser → Ini.sections parser !! Ini.default_section = None.
Proof.
  destruct file as [f|]; cbn.
  - intros Hread. by apply (read_sections_default f Ini.empty).
  - by intros [= <-].
Qed.

Lemma getitem_section (parser : Ini.ConfigParser) (name : string) (proxy : gmap string string) :
  name ≠ Ini.default_section →
  Ini.getitem parser name = Ok proxy →
  ∃ options, Ini.sections parser !! name = Some options ∧ proxy = options ∪ Ini.defaults parser.
Proof.
  intros Hne. unfold Ini.getitem. rewrite decide_False by done.
  destruct (Ini.sections parser !! name) as [options|]; [|done].
  intros [= <-]. by exists options.
Qed.

(** ** The invariant [running]: established by startup *)

Lemma main_running (file : option ini_file) (st : app) :
  main (fresh file) = (Ok tt, st) → running st.
Proof.
  intros (parser & d & a & w & flags & st0 & Hread & _ & _ & Hw & Hbuilt & ->)%main_ok.
  destruct Hbuilt as (Hconfig & _ & _ & _ & Hlayout & _ & Hconn & Htimer & _).
  apply getitem_section in Hw as (options & Hw & _); [|done].
  split; cbn.
  - rewrite Hconfig. cbn. by rewrite Hw.
  - rewrite Hconfig. cbn. by apply (read_default file).
  - done.
  - done.
  - rewrite Hlayout. constructor.
Qed.

(** ** The invariant [running]: kept by every handled event *)

Lemma running_set_log (l : list call) (st : app) : running st → running (set_log l st).
Proof. intros [? ? ? ? ?]. by split. Qed.

Lemma running_set_oldPos (o : option (Z * Z)) (st : app) :
  running st → running (set_oldPos o st).
Proof. intros [? ? ? ? ?]. by split. Qed.

Lemma running_set_futures (n : nat) (st : app) : running st → running (set_futures n st).
Proof. intros [? ? ? ? ?]. by split. Qed.

Lemma running_moved (x y : Z) (st : app) : running st → running (moved x y st).
Proof. intros [? ? ? ? ?]. by split. Qed.

Lemma running_refreshed (h : Z) (a b c : string) (st : app) :
  running st → running (refreshed h a b c st).
Proof.
  intros [? ? ? ? ?]. split; try done.
  cbn. repeat constructor; cbn; lia.
Qed.

Lemma running_saved (w : gmap string string) (st : app) : running st → running (saved w st).
Proof.
  intros [? Hdef ? ? ?]. split; try done; cbn.
  - rewrite lookup_insert_eq. by eexists.
  - by rewrite lookup_insert_ne.
Qed.

Lemma emit_running (a b c : string) (st st' : app) :
  running st → emit a b c st = (Ok tt, st') → running st'.
Proof.
  intros Hrun Hemit.
  destruct (font_size (styles st)) as [h|] eqn:Hfont.
  - rewrite (emit_ok h) in Hemit by (done || apply Hrun). injection Hemit as <-.
    by apply running_refreshed, running_set_log.
  - exfalso. revert Hemit. destruct Hrun as [_ _ Hconn _ _].
    destruct st as [? ? ? ? ? ? [size ? ? ? ?] ? ? ? conn ? ? ? ?].
    cbn in Hfont, Hconn. subst size conn.
    unfold emit, update_ui, scaledToHeight. mrun. rewrite do_calls_log. by mrun.
Qed.

Ltac case_inner H :=
  match type of H with
  | context [match ?x with _ => _ end] =>
      lazymatch x with
      | context [match _ with _ => _ end] => fail
      | _ => destruct x eqn:?
      end
  end.

Lemma update_info_post (client : Z → response) (st st' : app) :
  update_info client st = (Ok tt, st') →
  st' = st ∨ ∃ a b c st1, emit a b c st1 = (Ok tt, st') ∧
                          (st1 = st ∨ ∃ l, st1 = set_log l st).
Proof.
  unfold update_info, try_except, try_except_genshin, get_notes, bind, gets, lift,
    do_call, modify, raise, ret.
  intros Hrun.
  repeat (case_inner Hrun; try discriminate Hrun); unfold lift in *; simplify_eq;
    repeat match goal with u : unit |- _ => destruct u end;
    try (exfalso; eapply emit_not_raise; eassumption);
    first [ by left | right; do 4 eexists; split; [eassumption|]; eauto ].
Qed.

Lemma update_info_running (client : Z → response) (st st' : app) :
  running st → update_info client st = (Ok tt, st') → running st'.
Proof.
  intros Hrun [->|(a & b & c & st1 & Hemit & Hst1)]%update_info_post; [done|].
  apply (emit_running a b c st1); [|done].
  destruct Hst1 as [->|[l ->]]; [done|]. by apply running_set_log.
Qed.

Lemma dispatch_running (ev : event) (st st' : app) :
  running st → dispatch ev st = (Ok tt, st') → running st'.
Proof.
  intros Hrun. pose proof Hrun as [[w Hw] _ _ _ _].
  destruct ev as [client|client|b globalPos|globalPos|]; unfold dispatch.
  - unfold bind, gets. destruct (futures st) as [|n]; [by intros [= <-]|].
    unfold modify, add_info_labels. apply update_info_running. by apply running_set_futures.
  - unfold bind, gets. destruct (timer st); [|by intros [= <-]].
    by apply update_info_running.
  - unfold bind, gets. destruct (press_handler st); [|by intros [= <-]].
    unfold called_by_qt, startMove. destruct b; unfold modify, ret; intros [= <-]; try done.
    by apply running_set_oldPos.
  - unfold called_by_qt. destruct (oldPos st) as [old|] eqn:Hold.
    + rewrite (mouseMoveEvent_ok w old) by done. intros [= <-].
      by apply running_saved, running_set_oldPos, running_moved.
    + unfold mouseMoveEvent, bind, gets, raise, lift. by rewrite Hold.
  - unfold called_by_qt. rewrite (closeEvent_ok w) by done. intros [= <-].
    by apply running_set_log, running_saved.
Qed.

Lemma run_running (events : list event) (st st' : app) :
  running st → run events st = (Ok tt, st') → running st'.
Proof.
  revert st. induction events as [|ev events IH]; intros st Hrun; cbn [run].
  - by intros [= <-].
  - unfold bind. destruct (dispatch ev st) as [[[]| | |] st1] eqn:Hev; try done.
    apply IH. by apply (dispatch_running ev st).
Qed.

(** ** What a refresh adds to the log *)


Lemma update_ui_log (a b c : string) (st : app) :
  ∃ cs, log (update_ui a b c st).2 = log st ++ cs ∧ api_calls cs = [] ∧ emitted cs = [].
Proof.
  destruct (font_size (styles st)) as [h|] eqn:Hfont.
  - rewrite (update_ui_ok h) by done. eexists. split; [reflexivity|].
    unfold api_calls, emitted. rewrite !omap_app.
    fold (api_calls (clear_layout (content_layout st))).
    fold (emitted (clear_layout (content_layout st))).
    rewrite api_calls_clear, emitted_clear. by destruct (fit_window_to_text st).
  - exists (clear_layout (content_layout st)).
    split; [|by rewrite api_calls_clear, emitted_clear].
    unfold update_ui, scaledToHeight. mrun. rewrite do_calls_log.
    destruct st as [? ? ? ? ? ? [size ? ? ? ?] ? ? ? ? ? ? ? ?]. mrun_all. by subst size.
Qed.

Lemma emit_log (a b c : string) (st : app) :
  ∃ cs, log (emit a b c st).2 = log st ++ Emit a b c :: cs ∧ api_calls cs = [] ∧ emitted cs = [].
Proof.
  unfold emit.
  destruct (update_ui_log a b c (set_log (log st ++ [Emit a b c]) st)) as (cs & Hlog & Hapi & Hem).
  destruct st as [? ? l ? ? ? ? ? ? ? conn ? ? ? ?]. mrun_all. destruct conn.
  - exists cs. split; [|done]. rewrite <- app_assoc in Hlog. cbn [List.app] in Hlog.
    rewrite <- Hlog. by destruct (update_ui a b c _) as [[]].
  - by exists [].
Qed.

Lemma emit_api_calls (a b c : string) (st : app) :
  api_calls (log (emit a b c st).2) = api_calls (log st).
Proof.
  destruct (emit_log a b c st) as (cs & -> & Hapi & _).
  unfold api_calls in *. rewrite omap_app. cbn. by rewrite Hapi, app_nil_r.
Qed.

Lemma emit_emitted (a b c : string) (st : app) :
  emitted (log (emit a b c st).2) = emitted (log st) ++ [(a, b, c)].
Proof.
  destruct (emit_log a b c st) as (cs & -> & _ & Hem).
  unfold emitted in *. rewrite omap_app. cbn. by rewrite Hem.
Qed.


(** * The claims *)

Lemma section_get_ok (parser : Ini.ConfigParser) (section key : string) (o : option string) :
  Ini.section_get parser section key = Ok o →
  ∃ proxy, Ini.getitem parser section = Ok proxy ∧ proxy !! key = o.
Proof.
  unfold Ini.section_get, Ini.get.
  destruct (Ini.getitem parser section) as [proxy| | |]; [|done..].
  intros [= <-]. by exists proxy.
Qed.

Lemma get_or_present (proxy : gmap string string) (key value fallback : string) :
  proxy !! key = Some value → Ini.get_or proxy key fallback = value.
Proof. unfold Ini.get_or. by intros ->. Qed.

Lemma contains_suffix (pre s : string) : contains (pre +:+ s) s.
Proof. exists pre, "". by rewrite append_empty_r. Qed.

Lemma sample_started_ok : main (fresh (Some sample_settings)) = (Ok tt, sample_started).
Proof. vm_compute. reflexivity. Qed.

Lemma sample_started_running : running sample_started.
Proof. exact (main_running (Some sample_settings) sample_started sample_started_ok). Qed.










(** C9.  When [ltuid_v2] does not convert to an integer, a refresh emits
    the generic failure triple, whose first text is "Error fetching data: "
    followed by the message of the exception and whose other texts are
    empty, whatever [show_notes] is; the API client is not called.  So does
    every tick of the timer. *)
Theorem C9_bad_uid_generic_failure (st : app) (client : Z → response) (v : string) (e : exn) :
  Ini.section_get (config st) "Auth" "ltuid_v2" = Ok (Some v) →
  int v = Raise e →
  ∃ first, first = "Error fetching data: " +:+ str_exn e ∧
    contains first (str_exn e) ∧
    update_info client st = emit first "" "" st ∧
    (is_Some (timer st) → dispatch (TimerTimeout client) st = emit first "" "" st) ∧
    emitted (log (update_info client st).2) = emitted (log st) ++ [(first, "", "")] ∧
    api_calls (log (update_info client st).2) = api_calls (log st).
Proof.
  intros (auth & Hauth & Hltuid)%section_get_ok Hint.
  pose proof (update_info_bad_uid st client auth v Hauth Hltuid e Hint) as Hbad.
  exists ("Error fetching data: " +:+ str_exn e).
  split; [done|]. split; [apply contains_suffix|]. split; [done|]. split; [|split].
  - intros [t Ht]. unfold dispatch, bind, gets. by rewrite Ht.
  - rewrite Hbad. apply emit_emitted.
  - rewrite Hbad. apply emit_api_calls.
Qed.

Lemma C9_witness :
  ∃ first, first = "Error fetching data: " +:+ str_exn (int_error "abc") ∧
    contains first (str_exn (int_error "abc")) ∧
    update_info sample_client bad_uid_hidden_started = emit first "" "" bad_uid_hidden_started ∧
    (is_Some (timer bad_uid_hidden_started) →
     dispatch (TimerTimeout sample_client) bad_uid_hidden_started
     = emit first "" "" bad_uid_hidden_started) ∧
    emitted (log (update_info sample_client bad_uid_hidden_started).2)
    = emitted (log bad_uid_hidden_started) ++ [(first, "", "")] ∧
    api_calls (log (update_info sample_client bad_uid_hidden_started).2)
    = api_calls (log bad_uid_hidden_started).
Proof.
  apply (C9_bad_uid_generic_failure bad_uid_hidden_started sample_client "abc").
  - vm_compute. reflexivity.
  - vm_compute. reflexivity.
Defined.

(** ** Startup: the two checks *)


Lemma setting_lookup (file : option ini_file) (parser : Ini.ConfigParser)
    (section key : string) (proxy : gmap string string) (o : option string) :
  Ini.read file = Ok parser →
  Ini.getitem parser section = Ok proxy →
  setting file section key = Ok o → proxy !! key = o.
Proof.
  unfold setting, Ini.section_get, Ini.get. intros -> ->. by intros [= <-].
Qed.

Lemma initUI_loaded (d a w : gmap string string) (st st1 : app) :
  load_settings st = (Ok (d, a, w), st1) →
  initUI st =
  (check_auth a ;;; flags <- check_exclusive d ;; build_window d a w flags) st1.
Proof. intros Hload. unfold initUI. unfold bind at 1. by rewrite Hload. Qed.



Lemma check_auth_pass (a : gmap string string) (st : app) :
  (∀ key, key ∈ auth_fields → ∃ value, a !! key = Some value ∧ value ≠ "") →
  check_auth a st = (Ok tt, st).
Proof.
  intros Hall. unfold check_auth, Ini.get.
  assert (∀ key, key ∈ auth_fields → falsy (a !! key) = false) as Hfalse.
  { intros key (value & -> & Hne)%Hall. cbn. by apply bool_decide_eq_false. }
  rewrite !Hfalse; [done|unfold auth_fields; set_solver..].
Qed.


Lemma check_exclusive_pass (d : gmap string string) (ww fw : string) (st : app) :
  d !! "word_wrap" = Some ww → d !! "fit_window_to_text" = Some fw →
  ¬ (ww = "1" ∧ fw = "1") →
  check_exclusive d st = (Ok (bool_from_str ww, bool_from_str fw), st).
Proof.
  intros Hww Hfw Hnot. unfold check_exclusive, Ini.getitem_option, bind, lift.
  rewrite Hww, Hfw.
  assert (bool_from_str ww && bool_from_str fw = false) as ->; [|done].
  unfold bool_from_str. apply andb_false_iff.
  destruct (decide (ww = "1")) as [->|Hne].
  - right. apply bool_decide_eq_false. naive_solver.
  - left. by apply bool_decide_eq_false.
Qed.







(** ** Startup: the position *)

Lemma restore_position_values (w : gmap string string) (x y : Z) (st : app) :
  Ini.getint_or w "last_x" 100 = Ok x →
  Ini.getint_or w "last_y" 100 = Ok y →
  restore_position w st = (Ok tt, moved x y st).
Proof. intros Hx Hy. unfold restore_position, bind, lift. by rewrite Hx, Hy. Qed.

(** C6.  The step that restores the position moves the window to
    (250, 80) when the Window section has [last_x] "250" and [last_y] "80",
    and takes 100 for a coordinate whose option is absent, so that it moves
    the window to (100, 100) when both are absent.  No later step of
    startup moves the window: when startup succeeds, the position of the
    window is the restored one. *)
Theorem C6_initial_position (file : option ini_file) (w : gmap string string) (st0 st : app) :
  (w !! "last_x" = Some "250" → w !! "last_y" = Some "80" →
   restore_position w st0 = (Ok tt, moved 250 80 st0))
  ∧ (w !! "last_x" = None → Ini.getint_or w "last_x" 100 = Ok 100)
  ∧ (w !! "last_y" = None → Ini.getint_or w "last_y" 100 = Ok 100)
  ∧ (w !! "last_x" = None → w !! "last_y" = None →
     restore_position w st0 = (Ok tt, moved 100 100 st0))
  ∧ (main (fresh file) = (Ok tt, st) →
     (setting file "Window" "last_x" = Ok (Some "250") →
      setting file "Window" "last_y" = Ok (Some "80") → position st = (250, 80))
     ∧ (setting file "Window" "last_x" = Ok None → (position st).1 = 100)
     ∧ (setting file "Window" "last_y" = Ok None → (position st).2 = 100)
     ∧ (setting file "Window" "last_x" = Ok None →
        setting file "Window" "last_y" = Ok None → position st = (100, 100))).
Proof.
  split; [|split; [|split; [|split]]].
  - intros Hx Hy. apply restore_position_values; unfold Ini.getint_or; by rewrite ?Hx, ?Hy.
  - intros Hx. unfold Ini.getint_or. by rewrite Hx.
  - intros Hy. unfold Ini.getint_or. by rewrite Hy.
  - intros Hx Hy. apply restore_position_values; unfold Ini.getint_or; by rewrite ?Hx, ?Hy.
  - intros (parser & d & a & w' & flags & st1 & Hread & _ & _ & Hw & Hbuilt & ->)%main_ok.
    destruct Hbuilt as (_ & _ & Hx & Hy & _). cbn [position set_log].
    assert (∀ key o, setting file "Window" key = Ok o → w' !! key = o) as Hlookup.
    { intros key o. by apply (setting_lookup file parser "Window" key w'). }
    unfold Ini.getint_or in Hx, Hy. destruct (position st1) as [x y]. cbn [fst snd] in *.
    split; [|split; [|split]].
    + intros Hlx%Hlookup Hly%Hlookup. rewrite Hlx in Hx. rewrite Hly in Hy.
      vm_compute in Hx, Hy. congruence.
    + intros Hlx%Hlookup. rewrite Hlx in Hx. congruence.
    + intros Hly%Hlookup. rewrite Hly in Hy. congruence.
    + intros Hlx%Hlookup Hly%Hlookup. rewrite Hlx in Hx. rewrite Hly in Hy. congruence.
Qed.

Lemma C6_witness :
  position sample_started = (250, 80) ∧ position started_without_position = (100, 100).
Proof.
  split.
  - apply (C6_initial_position (Some sample_settings) ∅ (fresh None) sample_started).
    + vm_compute. reflexivity.
    + vm_compute. reflexivity.
    + vm_compute. reflexivity.
  - apply (C6_initial_position (Some settings_without_position) ∅ (fresh None)
             started_without_position).
    + vm_compute. reflexivity.
    + vm_compute. reflexivity.
    + vm_compute. reflexivity.
Defined.

(** ** Saving the position: what is stored and what is kept *)

Lemma getitem_with_position (parser : Ini.ConfigParser) (w : gmap string string) (p : Z * Z) :
  Ini.getitem (with_position parser w p) "Window"
  = Ok (<["last_y" := str_int p.2]> (<["last_x" := str_int p.1]> w) ∪ Ini.defaults parser).
Proof.
  unfold Ini.getitem, with_position. rewrite decide_False by done.
  cbn [Ini.sections Ini.defaults]. by rewrite lookup_insert_eq.
Qed.

Lemma getitem_with_position_ne (parser : Ini.ConfigParser) (w : gmap string string)
    (p : Z * Z) (section : string) :
  section ≠ "Window" →
  Ini.getitem (with_position parser w p) section = Ini.getitem parser section.
Proof.
  intros Hne. unfold Ini.getitem, with_position. cbn [Ini.sections Ini.defaults].
  by rewrite lookup_insert_ne.
Qed.

Lemma with_position_kept (parser : Ini.ConfigParser) (w : gmap string string) (p : Z * Z) :
  Ini.sections parser !! "Window" = Some w →
  other_settings_kept parser (with_position parser w p).
Proof.
  intros Hw. split; [done|]. split.
  - intros section Hne. cbn. by rewrite lookup_insert_ne.
  - intros section key Hx Hy. unfold Ini.section_get.
    destruct (decide (section = "Window")) as [->|Hne].
    + rewrite getitem_with_position. unfold Ini.getitem. rewrite decide_False by done.
      rewrite Hw. unfold Ini.get. f_equal.
      rewrite !lookup_union, !lookup_insert_ne; [done|congruence..].
    + by rewrite getitem_with_position_ne.
Qed.

Lemma other_settings_kept_refl (parser : Ini.ConfigParser) : other_settings_kept parser parser.
Proof. by split. Qed.

Lemma other_settings_kept_trans (p1 p2 p3 : Ini.ConfigParser) :
  other_settings_kept p1 p2 → other_settings_kept p2 p3 → other_settings_kept p1 p3.
Proof.
  intros (Hd1 & Hs1 & Hg1) (Hd2 & Hs2 & Hg2). split; [congruence|]. split.
  - intros section Hne. by rewrite Hs2, Hs1.
  - intros section key Hx Hy. by rewrite Hg2, Hg1.
Qed.

Lemma saved_position_stored (w : gmap string string) (st : app) :
  running st → position_stored (saved w st).
Proof.
  intros [_ Hdef _ _ _].
  assert (Ini.read (Some (Ini.write (with_position (config st) w (position st))))
          = Ok (with_position (config st) w (position st))) as Hread.
  { apply read_write. cbn. by rewrite lookup_insert_ne. }
  assert (∀ key value,
            (<["last_y" := str_int (position st).2]>
               (<["last_x" := str_int (position st).1]> w) !! key = Some value) →
            Ini.section_get (with_position (config st) w (position st)) "Window" key
            = Ok (Some value)) as Hget.
  { intros key value Hlookup. unfold Ini.section_get. rewrite getitem_with_position.
    unfold Ini.get. by rewrite lookup_union, Hlookup, union_Some_l. }
  unfold position_stored, saved, setting.
  cbn [position config settings_ini set_log set_settings_ini set_config].
  rewrite Hread. repeat split; try done; try apply int_str_int.
  - apply Hget. rewrite lookup_insert_ne by done. apply lookup_insert_eq.
  - apply Hget. apply lookup_insert_eq.
  - apply Hget. rewrite lookup_insert_ne by done. apply lookup_insert_eq.
  - apply Hget. apply lookup_insert_eq.
Qed.



Lemma sample_dragging_running : running sample_dragging.
Proof.
  apply (dispatch_running (MousePress LeftButton (5, 5)) sample_started).
  - exact sample_started_running.
  - vm_compute. reflexivity.
Qed.


(** ** What the handlers keep *)

Lemma update_ui_post (a b c : string) (st st' : app) :
  update_ui a b c st = (Ok tt, st') → ∃ h, st' = refreshed h a b c st.
Proof.
  destruct (font_size (styles st)) as [h|] eqn:Hfont.
  - rewrite (update_ui_ok h) by done. intros [= <-]. by exists h.
  - unfold update_ui, scaledToHeight. mrun. rewrite do_calls_log.
    destruct st as [? ? ? ? ? ? [size ? ? ? ?] ? ? ? ? ? ? ? ?]. cbn in Hfont. subst size.
    by mrun.
Qed.

Lemma emit_keeps (a b c : string) (st st' : app) :
  emit a b c st = (Ok tt, st') →
  config st' = config st ∧ settings_ini st' = settings_ini st ∧ timer st' = timer st ∧
  futures st' = futures st.
Proof.
  unfold emit, bind, do_call, modify, gets, ret, called_by_qt.
  cbn [connected set_log]. destruct (connected st).
  - destruct (update_ui a b c _) as [[[]| | |] st1] eqn:Hui; try done.
    intros [= <-]. by apply update_ui_post in Hui as [h ->].
  - by intros [= <-].
Qed.

Lemma update_info_keeps (client : Z → response) (st st' : app) :
  update_info client st = (Ok tt, st') →
  config st' = config st ∧ settings_ini st' = settings_ini st ∧ timer st' = timer st ∧
  futures st' = futures st.
Proof.
  intros [->|(a & b & c & st1 & Hemit & Hst1)]%update_info_post; [done|].
  apply emit_keeps in Hemit as (-> & -> & -> & ->).
  by destruct Hst1 as [->|[l ->]].
Qed.

Lemma dispatch_keeps (ev : event) (st st' : app) :
  running st → dispatch ev st = (Ok tt, st') →
  other_settings_kept (config st) (config st') ∧ timer st' = timer st ∧
  (futures st' ≤ futures st)%nat ∧ file_current st st'.
Proof.
  intros Hrun. pose proof Hrun as [[w Hw] _ _ _ _].
  assert (∀ st1 : app, config st1 = config st → settings_ini st1 = settings_ini st →
            timer st1 = timer st → (futures st1 ≤ futures st)%nat →
            other_settings_kept (config st) (config st1) ∧ timer st1 = timer st ∧
            (futures st1 ≤ futures st)%nat ∧ file_current st st1) as Hsame.
  { intros st1 Hc Hs Ht Hf. rewrite Hc.
    split; [apply other_settings_kept_refl|]. split; [done|]. split; [done|]. by left. }
  destruct ev as [client|client|b globalPos|globalPos|]; unfold dispatch.
  - unfold bind, gets. destruct (futures st) as [|n] eqn:Hn.
    + intros [= <-]. apply Hsame; try done. lia.
    + unfold modify, add_info_labels. intros (Hc & Hs & Ht & Hf)%update_info_keeps.
      cbn in Hc, Hs, Ht, Hf. apply Hsame; try done. lia.
  - unfold bind, gets. destruct (timer st) eqn:Ht.
    + intros (Hc & Hs & Ht' & Hf)%update_info_keeps. apply Hsame; try done; [congruence|lia].
    + intros [= <-]. by apply Hsame.
  - unfold bind, gets. destruct (press_handler st).
    + unfold called_by_qt, startMove.
      destruct b; unfold modify, ret; intros [= <-]; by apply Hsame.
    + intros [= <-]. by apply Hsame.
  - unfold called_by_qt. destruct (oldPos st) as [old|] eqn:Hold.
    + rewrite (mouseMoveEvent_ok w old) by done. intros [= <-].
      split; [by apply (with_position_kept (config st) w)|].
      split; [done|]. split; [done|]. by right.
    + unfold mouseMoveEvent, bind, gets, raise, lift. by rewrite Hold.
  - unfold called_by_qt. rewrite (closeEvent_ok w) by done. intros [= <-].
    split; [by apply (with_position_kept (config st) w)|].
    split; [done|]. split; [done|]. by right.
Qed.

Lemma run_keeps (events : list event) (st st' : app) :
  running st → run events st = (Ok tt, st') →
  other_settings_kept (config st) (config st') ∧ timer st' = timer st ∧
  (futures st' ≤ futures st)%nat ∧ file_current st st'.
Proof.
  revert st. induction events as [|ev events IH]; intros st Hrun; cbn [run].
  - intros [= <-]. split; [apply other_settings_kept_refl|].
    split; [done|]. split; [done|]. by left.
  - unfold bind. destruct (dispatch ev st) as [[[]| | |] st1] eqn:Hev; try done.
    intros Hrest.
    destruct (dispatch_keeps ev st st1 Hrun Hev) as (Hk1 & Ht1 & Hf1 & Hc1).
    destruct (IH st1 (dispatch_running ev st st1 Hrun Hev) Hrest) as (Hk2 & Ht2 & Hf2 & Hc2).
    split; [by apply (other_settings_kept_trans _ (config st1))|].
    split; [congruence|]. split; [lia|].
    destruct Hc2 as [[Hs2 Hg2]|Hw2]; [|by right].
    destruct Hc1 as [[Hs1 Hg1]|Hw1].
    + left. split; congruence.
    + right. congruence.
Qed.

(** C10.  Saving the position, on a mouse-move event of a drag and on
    close, writes the file from the settings in memory, and in these
    settings changes nothing but [last_x] and [last_y] of section Window:
    every other option of every section, and the defaults, read as before.
    Over any run of handled events the other options keep the values they
    had at its start, and the file is either untouched or the settings in
    memory. *)
Theorem C10_only_position_keys_change (st : app) (old globalPos : Z * Z) :
  running st →
  (∃ st', dispatch Close st = (Ok tt, st') ∧
     other_settings_kept (config st) (config st') ∧
     settings_ini st' = Some (Ini.write (config st')) ∧
     Ini.read (settings_ini st') = Ok (config st'))
  ∧ (oldPos st = Some old →
     ∃ st', dispatch (MouseMove globalPos) st = (Ok tt, st') ∧
       other_settings_kept (config st) (config st') ∧
       settings_ini st' = Some (Ini.write (config st')) ∧
       Ini.read (settings_ini st') = Ok (config st'))
  ∧ (∀ events st', run events st = (Ok tt, st') →
       other_settings_kept (config st) (config st') ∧ file_current st st').
Proof.
  intros Hrun. pose proof Hrun as [[w Hw] _ _ _ _]. split; [|split].
  - eexists. split; [|split; [|split]].
    + unfold dispatch, called_by_qt. by rewrite (closeEvent_ok w).
    + by apply (with_position_kept (config st) w).
    + reflexivity.
    + by apply (saved_position_stored w st).
  - intros Hold. eexists. split; [|split; [|split]].
    + unfold dispatch, called_by_qt. by rewrite (mouseMoveEvent_ok w old).
    + by apply (with_position_kept (config st) w).
    + reflexivity.
    + by apply (saved_position_stored w), running_set_oldPos, running_moved.
  - intros events st' Hevents.
    by destruct (run_keeps events st st' Hrun Hevents) as (? & _ & _ & ?).
Qed.

Lemma C10_witness :
  (∃ st', dispatch Close sample_dragging = (Ok tt, st') ∧
     other_settings_kept (config sample_dragging) (config st') ∧
     settings_ini st' = Some (Ini.write (config st')) ∧
     Ini.read (settings_ini st') = Ok (config st'))
  ∧ (∃ st', dispatch (MouseMove (7, 9)) sample_dragging = (Ok tt, st') ∧
       other_settings_kept (config sample_dragging) (config st') ∧
       settings_ini st' = Some (Ini.write (config st')) ∧
       Ini.read (settings_ini st') = Ok (config st'))
  ∧ (∀ events st', run events sample_dragging = (Ok tt, st') →
       other_settings_kept (config sample_dragging) (config st') ∧
       file_current sample_dragging st').
Proof.
  destruct (C10_only_position_keys_change sample_dragging (5, 5) (7, 9)
              sample_dragging_running) as (Hclose & Hmove & Hrun).
  split; [exact Hclose|]. split; [|exact Hrun]. apply Hmove. vm_compute. reflexivity.
Defined.

(** ** The refresh: when the API client is called *)

Lemma update_info_api_calls (st : app) (client : Z → response) (v : string) (uid : Z)
    (o : option string) :
  Ini.section_get (config st) "Auth" "ltuid_v2" = Ok (Some v) →
  int v = Ok uid →
  Ini.section_get (config st) "Display" "show_notes" = Ok o →
  api_calls (log (update_info client st).2)
  = api_calls (log st) ++ (if bool_from_str (default "0" o) then [uid] else []).
Proof.
  intros (auth & Hauth & Hltuid)%section_get_ok Huid (display & Hdisplay & Hshow)%section_get_ok.
  assert (Ini.get_or display "show_notes" "0" = default "0" o) as Hget.
  { unfold Ini.get_or. by rewrite Hshow. }
  destruct (bool_from_str (default "0" o)) eqn:Hgate.
  - rewrite (update_info_fetch st client auth display v Hauth Hltuid uid Huid Hdisplay)
      by (by rewrite Hget).
    cbv zeta.
    assert (∀ a b c, api_calls (log (emit a b c (set_log (log st ++ [GetNotes uid]) st)).2)
                     = api_calls (log st) ++ [uid]) as Hemit.
    { intros a b c. rewrite emit_api_calls. cbn [log set_log]. unfold api_calls.
      by rewrite omap_app. }
    destruct (client uid) as [n|[]]; apply Hemit.
  - rewrite (update_info_skip st client auth display v Hauth Hltuid uid Huid Hdisplay)
      by (by rewrite Hget).
    by rewrite app_nil_r.
Qed.

Lemma started_setting (file : option ini_file) (st : app) (section key : string)
    (o : option string) :
  main (fresh file) = (Ok tt, st) →
  setting file section key = Ok o →
  Ini.section_get (config st) section key = Ok o.
Proof.
  intros (parser & d & a & w & flags & st0 & Hread & _ & _ & _ & Hbuilt & ->)%main_ok.
  destruct Hbuilt as (Hconfig & _). cbn [config set_log]. rewrite Hconfig. cbn.
  unfold setting. by rewrite Hread.
Qed.

(** C5, as the code has it.  After a successful startup one refresh is
    waiting to run and the timer runs with an interval of 60000 ms; the
    waiting task and every tick of the timer run [update_info], and no
    handled event stops the timer or adds a task.  When [ltuid_v2]
    converts to an integer, every such refresh calls the API client exactly
    when [show_notes], "0" if absent, is "1". *)
Theorem C5_refresh_schedule_and_gate (file : option ini_file) (st : app) (v : string)
    (uid : Z) (o : option string) :
  main (fresh file) = (Ok tt, st) →
  setting file "Auth" "ltuid_v2" = Ok (Some v) →
  int v = Ok uid →
  setting file "Display" "show_notes" = Ok o →
  futures st = 1%nat ∧ timer st = Some 60000 ∧
  (∀ client, dispatch (FutureReady client) st = update_info client (set_futures 0 st)) ∧
  ∀ events st', run events st = (Ok tt, st') →
    timer st' = Some 60000 ∧ (futures st' ≤ 1)%nat ∧
    (futures st' = 0%nat → ∀ client, dispatch (FutureReady client) st' = (Ok tt, st')) ∧
    ∀ client,
      dispatch (TimerTimeout client) st' = update_info client st' ∧
      api_calls (log (update_info client st').2)
      = api_calls (log st') ++ (if bool_decide (default "0" o = "1") then [uid] else []).
Proof.
  intros Hmain Hltuid Huid Hshow.
  pose proof (main_running file st Hmain) as Hrun.
  pose proof (started_setting file st _ _ _ Hmain Hltuid) as Hltuid'.
  pose proof (started_setting file st _ _ _ Hmain Hshow) as Hshow'.
  pose proof Hmain as (parser & d & a & w & flags & st0 & _ & _ & _ & _ & Hbuilt & ->)%main_ok.
  destruct Hbuilt as (_ & _ & _ & _ & _ & _ & _ & Htimer & Hfutures & _).
  cbn [futures timer set_log] in *. cbn in Hfutures.
  split; [done|]. split; [done|]. split.
  { intros client. unfold dispatch, bind, gets, modify. cbn [futures set_log].
    by rewrite Hfutures. }
  intros events st' Hevents.
  destruct (run_keeps events _ st' Hrun Hevents) as ((_ & _ & Hkept) & Ht & Hf & _).
  cbn [futures timer set_log] in *.
  split; [congruence|]. split; [lia|]. split.
  { intros Hzero client. unfold dispatch, bind, gets. by rewrite Hzero. }
  intros client. split.
  - unfold dispatch, bind, gets. by rewrite Ht, Htimer.
  - apply (update_info_api_calls st' client v uid o); [| done |].
    + by rewrite Hkept.
    + by rewrite Hkept.
Qed.

Lemma C5_witness :
  futures sample_started = 1%nat ∧ timer sample_started = Some 60000 ∧
  (∀ client, dispatch (FutureReady client) sample_started
             = update_info client (set_futures 0 sample_started)) ∧
  ∀ events st', run events sample_started = (Ok tt, st') →
    timer st' = Some 60000 ∧ (futures st' ≤ 1)%nat ∧
    (futures st' = 0%nat → ∀ client, dispatch (FutureReady client) st' = (Ok tt, st')) ∧
    ∀ client,
      dispatch (TimerTimeout client) st' = update_info client st' ∧
      api_calls (log (update_info client st').2)
      = api_calls (log st')
        ++ (if bool_decide (default "0" (Some "1") = "1") then [123456789] else []).
Proof.
  apply (C5_refresh_schedule_and_gate (Some sample_settings) sample_started "123456789").
  - vm_compute. reflexivity.
  - vm_compute. reflexivity.
  - vm_compute. reflexivity.
  - vm_compute. reflexivity.
Defined.

(** C5 as stated fails.  With [ltuid_v2] "abc" and [show_notes] "1",
    startup succeeds, and a tick of the timer does not call the API client:
    it emits the generic failure triple. *)
Lemma C5_counterexample :
  (main (fresh (Some settings_bad_uid))).1 = Ok tt ∧
  setting (Some settings_bad_uid) "Auth" "ltuid_v2" = Ok (Some "abc") ∧
  setting (Some settings_bad_uid) "Display" "show_notes" = Ok (Some "1") ∧
  timer bad_uid_started = Some 60000 ∧
  api_calls (log (dispatch (TimerTimeout sample_client) bad_uid_started).2) = [] ∧
  emitted (log (dispatch (TimerTimeout sample_client) bad_uid_started).2)
  = [("Error fetching data: invalid literal for int() with base 10: 'abc'", "", "")].
Proof. vm_compute. repeat split. Qed.

(** * Further properties of the code *)

(** ** [update_info]: every way through it *)

Ltac case_inner_goal :=
  match goal with
  | |- context [match ?x with _ => _ end] =>
      lazymatch x with
      | context [match _ with _ => _ end] => fail
      | _ => destruct x eqn:?
      end
  end.

Lemma emit_not_exit (a b c : string) (st st' : app) : emit a b c st ≠ (SysExit, st').
Proof.
  unfold emit, bind, do_call, modify, gets, ret, called_by_qt. cbn [connected set_log].
  destruct (connected st); [|done].
  destruct (update_ui a b c _) as [[]] eqn:Hui; try done.
  intros [= <-]. revert Hui. unfold update_ui, scaledToHeight. mrun. rewrite do_calls_log.
  destruct st as [? ? ? ? ? ? [[size|] ? ? ? ?] ? [] ? ? ? ? ? ?]; by mrun.
Qed.

Lemma getitem_cases (parser : Ini.ConfigParser) (name : string) :
  (∃ proxy, Ini.getitem parser name = Ok proxy) ∨ ∃ e, Ini.getitem parser name = Raise e.
Proof. unfold Ini.getitem. repeat case_match; eauto. Qed.

Lemma getitem_option_cases (proxy : gmap string string) (key : string) :
  (∃ v, Ini.getitem_option proxy key = Ok v) ∨ ∃ e, Ini.getitem_option proxy key = Raise e.
Proof. unfold Ini.getitem_option. case_match; eauto. Qed.

Lemma int_cases (s : string) : (∃ z, int s = Ok z) ∨ ∃ e, int s = Raise e.
Proof. unfold int. case_match; eauto. Qed.

(** A refresh leaves the state alone, which it only does with the notes
    hidden, or emits one triple, after at most one call of the API
    client. *)
Lemma update_info_shape (client : Z → response) (st : app) :
  (update_info client st = (Ok tt, st) ∧
   ∃ display, Ini.getitem (config st) "Display" = Ok display ∧
              bool_from_str (Ini.get_or display "show_notes" "0") = false)
  ∨ ∃ a b c st1, update_info client st = emit a b c st1 ∧
      (st1 = st ∨ ∃ uid, st1 = set_log (log st ++ [GetNotes uid]) st).
Proof.
  destruct (getitem_cases (config st) "Auth") as [[auth Hauth]|[e Hauth]]; last first.
  { right. do 3 eexists. exists st. split; [|by left].
    unfold update_info, try_except, bind, gets, lift. by rewrite Hauth. }
  destruct (auth !! "ltuid_v2") as [v|] eqn:Hv; last first.
  { right. do 3 eexists. exists st. split; [|by left].
    unfold update_info, try_except, bind, gets, lift, Ini.getitem_option.
    by rewrite Hauth, Hv. }
  destruct (int_cases v) as [[uid Huid]|[e Huid]]; last first.
  { right. do 3 eexists. exists st. split; [|by left].
    by eapply update_info_bad_uid. }
  destruct (getitem_cases (config st) "Display") as [[display Hdisplay]|[e Hdisplay]];
    last first.
  { right. do 3 eexists. exists st. split; [|by left].
    unfold update_info, try_except, bind, gets, lift, Ini.getitem_option.
    by rewrite Hauth, Hv, Huid, Hdisplay. }
  destruct (bool_from_str (Ini.get_or display "show_notes" "0")) eqn:Hshow.
  - right. erewrite update_info_fetch by done. cbv zeta.
    destruct (client uid) as [n|[]]; do 4 eexists; (split; [reflexivity|right; by eexists]).
  - left. split; [by eapply update_info_skip|by exists display].
Qed.

Lemma update_ui_no_font (a b c : string) (st : app) :
  font_size (styles st) = None →
  ∃ msg, update_ui a b c st = (Raise (TypeError msg), cleared st).
Proof.
  intros Hfont. eexists. unfold update_ui, scaledToHeight, cleared. mrun.
  rewrite do_calls_log.
  destruct st as [? ? ? ? ? ? [size ? ? ? ?] ? ? ? ? ? ? ? ?]. mrun_all. subst size.
  reflexivity.
Qed.

Lemma emit_no_font (a b c : string) (st : app) :
  connected st = true → font_size (styles st) = None →
  ∃ msg, emit a b c st = (Abort (TypeError msg), cleared (set_log (log st ++ [Emit a b c]) st)).
Proof.
  intros Hconn Hfont.
  destruct (update_ui_no_font a b c (set_log (log st ++ [Emit a b c]) st)) as [msg Hui];
    [done|].
  exists msg. unfold emit.
  destruct st as [? ? ? ? ? ? ? ? ? ? conn ? ? ? ?]. mrun_all. subst conn.
  by rewrite Hui.
Qed.

Lemma render_call_clear (layout : list layout_item) :
  Forall (λ c, render_call c = true) (clear_layout layout).
Proof.
  eapply Forall_impl; [apply clear_item_calls|]. by intros [].
Qed.

Lemma update_ui_trace (a b c : string) (st : app) :
  ∃ cs, log (update_ui a b c st).2 = log st ++ cs ∧ Forall (λ c, render_call c = true) cs.
Proof.
  destruct (font_size (styles st)) as [h|] eqn:Hfont.
  - rewrite (update_ui_ok h) by done. eexists. split; [reflexivity|].
    rewrite !Forall_app. split; [apply render_call_clear|]. split.
    + by repeat constructor.
    + destruct (fit_window_to_text st); by repeat constructor.
  - destruct (update_ui_no_font a b c st Hfont) as [msg ->].
    exists (clear_layout (content_layout st)). split; [done|apply render_call_clear].
Qed.

Lemma emit_trace (a b c : string) (st : app) :
  ∃ cs, log (emit a b c st).2 = log st ++ Emit a b c :: cs ∧
        Forall (λ c, render_call c = true) cs.
Proof.
  unfold emit.
  destruct (update_ui_trace a b c (set_log (log st ++ [Emit a b c]) st)) as (cs & Hlog & Hcs).
  destruct st as [? ? l ? ? ? ? ? ? ? conn ? ? ? ?]. mrun_all. destruct conn.
  - exists cs. split; [|done]. rewrite <- app_assoc in Hlog. cbn [List.app] in Hlog.
    rewrite <- Hlog. by destruct (update_ui a b c _) as [[]].
  - by exists [].
Qed.

Lemma update_info_trace (client : Z → response) (st : app) :
  ∃ cs, log (update_info client st).2 = log st ++ cs ∧
    (cs = [] ∨
     ∃ pre a b c rs, cs = pre ++ Emit a b c :: rs ∧
       (pre = [] ∨ ∃ uid, pre = [GetNotes uid]) ∧
       Forall (λ c, render_call c = true) rs).
Proof.
  destruct (update_info_shape client st)
    as [[-> _]|(a & b & c & st1 & -> & Hst1)].
  { exists []. split; [by rewrite app_nil_r|by left]. }
  destruct (emit_trace a b c st1) as (rs & Hlog & Hrs). rewrite Hlog.
  destruct Hst1 as [->|[uid ->]].
  - eexists. split; [reflexivity|]. right. exists [], a, b, c, rs. eauto.
  - exists ([GetNotes uid] ++ Emit a b c :: rs). split.
    + cbn [log set_log]. by rewrite <- app_assoc.
    + right. exists [GetNotes uid], a, b, c, rs. eauto.
Qed.

(** X1.  Whatever the settings in memory and whatever the API client does,
    a refresh ends normally or with the process ended inside the slot: no
    exception leaves [update_info] and it never exits.  What it does is
    nothing at all, or at most one call of the API client, then exactly one
    emit, then only calls of the render layer: no warning, no move of the
    window, no write of the settings file. *)
Theorem update_info_contained (client : Z → response) (st : app) :
  (∀ e, (update_info client st).1 ≠ Raise e) ∧
  (update_info client st).1 ≠ SysExit ∧
  ∃ cs, log (update_info client st).2 = log st ++ cs ∧
    (cs = [] ∨
     ∃ pre a b c rs, cs = pre ++ Emit a b c :: rs ∧
       (pre = [] ∨ ∃ uid, pre = [GetNotes uid]) ∧
       Forall (λ c, render_call c = true) rs).
Proof.
  split; [|split; [|apply update_info_trace]].
  - destruct (update_info_shape client st)
      as [[-> _]|(a & b & c & st1 & -> & Hst1)]; [done|].
    intros e He. destruct (emit a b c st1) as [o st'] eqn:Hemit. cbn in He. subst o.
    by apply emit_not_raise in Hemit.
  - destruct (update_info_shape client st)
      as [[-> _]|(a & b & c & st1 & -> & Hst1)]; [done|].
    intros He. destruct (emit a b c st1) as [o st'] eqn:Hemit. cbn in He. subst o.
    by apply emit_not_exit in Hemit.
Qed.

(** ** Refreshes of a started widget *)

Lemma refreshed_frame (h : Z) (a b c : string) (st : app) :
  let st' := refreshed h a b c st in
  styles st' = styles st ∧ position st' = position st ∧ config st' = config st ∧
  settings_ini st' = settings_ini st ∧ oldPos st' = oldPos st ∧
  press_handler st' = press_handler st.
Proof. done. Qed.

Lemma update_info_frame (client : Z → response) (st st' : app) :
  update_info client st = (Ok tt, st') →
  styles st' = styles st ∧ position st' = position st ∧ oldPos st' = oldPos st ∧
  press_handler st' = press_handler st.
Proof.
  intros [->|(a & b & c & st1 & Hemit & Hst1)]%update_info_post; [done|].
  assert (styles st1 = styles st ∧ position st1 = position st ∧ oldPos st1 = oldPos st ∧
          press_handler st1 = press_handler st) as (<- & <- & <- & <-)
    by (by destruct Hst1 as [->|[l ->]]).
  revert Hemit. unfold emit, bind, do_call, modify, gets, called_by_qt.
  cbn [connected set_log]. destruct (connected st1).
  - destruct (update_ui a b c _) as [[[]| | |] st2] eqn:Hui; try done.
    intros [= <-]. apply update_ui_post in Hui as [h ->]. done.
  - unfold ret. by intros [= <-].
Qed.




Lemma started_font_size (file : option ini_file) (st : app) (o : option string) :
  main (fresh file) = (Ok tt, st) →
  setting file "Display" "font_size" = Ok o →
  match o with
  | Some v => ∃ h, int v = Ok h ∧ font_size (styles st) = Some h
  | None => font_size (styles st) = None
  end.
Proof.
  intros (parser & d & a & w & flags & st0 & Hread & Hd & _ & _ & Hbuilt & ->)%main_ok Hset.
  apply (setting_lookup file parser "Display" "font_size" d o Hread Hd) in Hset.
  destruct Hbuilt as (_ & _ & _ & _ & _ & _ & _ & _ & _ & _ & _ & _ & Hfont).
  cbn [styles set_log]. unfold Ini.getint in Hfont. rewrite Hset in Hfont.
  destruct o as [v|]; [|by injection Hfont as <-].
  destruct (int v) as [h| | |]; try done. injection Hfont as <-. by exists h.
Qed.




Lemma emitted_app (l1 l2 : list call) : emitted (l1 ++ l2) = emitted l1 ++ emitted l2.
Proof. apply omap_app. Qed.

(** X3.  A settings file without the [font_size] option passes startup,
    but with the notes shown the first refresh ends the process: whatever
    the API client does, a triple is emitted, the slot clears the layout
    and stops with a [TypeError] at the first icon, since
    [scaledToHeight] does not take [None]; no row is left. *)
Theorem refresh_without_font_size (file : option ini_file) (st : app)
    (client : Z → response) :
  main (fresh file) = (Ok tt, st) →
  setting file "Display" "font_size" = Ok None →
  setting file "Display" "show_notes" = Ok (Some "1") →
  ∃ msg st', dispatch (FutureReady client) st = (Abort (TypeError msg), st') ∧
    content_layout st' = [] ∧
    List.length (emitted (log st')) = S (List.length (emitted (log st))).
Proof.
  intros Hmain Hfont Hshow.
  pose proof (main_running _ _ Hmain) as Hrun.
  apply (started_font_size _ _ _ Hmain) in Hfont.
  apply (started_setting _ _ _ _ _ Hmain) in Hshow.
  assert (futures st = 1%nat) as Hfut.
  { apply main_ok in Hmain as (parser & d & a & w & flags & st0 & _ & _ & _ & _ & Hb & ->).
    destruct Hb as (_ & _ & _ & _ & _ & _ & _ & _ & Hf & _).
    cbn [futures set_log]. by rewrite Hf. }
  unfold dispatch, bind, gets. rewrite Hfut. unfold modify, add_info_labels.
  set (st1 := set_futures 0 st).
  destruct (update_info_shape client st1) as [[_ (d & Hd & Hoff)]|(a & b & c & st2 & -> & Hst2)].
  { apply section_get_ok in Hshow as (d' & Hd' & Hshow).
    change (config st1) with (config st) in Hd. rewrite Hd' in Hd. injection Hd as <-.
    by rewrite (get_or_present _ _ "1") in Hoff. }
  destruct (emit_no_font a b c st2) as [msg ->].
  - destruct Hst2 as [->|[uid ->]]; apply Hrun.
  - by destruct Hst2 as [->|[uid ->]].
  - exists msg. eexists. split; [reflexivity|]. split; [done|].
    unfold cleared. mfields. rewrite !emitted_app, emitted_clear, app_nil_r.
    rewrite length_app. change (emitted [Emit a b c]) with [(a, b, c)]. cbn [List.length].
    destruct Hst2 as [->|[uid ->]]; subst st1; mfields; [lia|].
    rewrite emitted_app. change (emitted [GetNotes uid]) with (@nil (string * string * string)).
    rewrite app_nil_r. lia.
Qed.

Lemma refresh_without_font_size_witness :
  ∃ msg st', dispatch (FutureReady sample_client) started_without_font_size
             = (Abort (TypeError msg), st') ∧
    content_layout st' = [] ∧
    List.length (emitted (log st')) = S (List.length (emitted (log started_without_font_size))).
Proof.
  apply (refresh_without_font_size (Some settings_without_font_size)).
  - vm_compute. reflexivity.
  - vm_compute. reflexivity.
  - vm_compute. reflexivity.
Defined.

(** ** Startup, whatever its outcome *)

Lemma any_bind {A B} (m : M A) (k : A → M B) (st : app) (Q : outcome B → app → Prop) :
  any_post m st (λ r st1, match r with
                          | Ok a => any_post (k a) st1 Q
                          | _ => Q (failed r) st1
                          end) →
  any_post (bind m k) st Q.
Proof. unfold any_post, bind. by destruct (m st) as [[] ?]. Qed.

Lemma any_lift {A} (o : outcome A) (st : app) (Q : outcome A → app → Prop) :
  plain o → (∀ a, o = Ok a → Q (Ok a) st) → (∀ e, o = Raise e → Q (Raise e) st) →
  any_post (lift o) st Q.
Proof. unfold any_post, lift. destruct o; cbn; intros []; eauto. Qed.

Lemma any_ret {A} (a : A) (st : app) (Q : outcome A → app → Prop) :
  Q (Ok a) st → any_post (ret a) st Q.
Proof. done. Qed.

Lemma any_gets {A} (f : app → A) (st : app) (Q : outcome A → app → Prop) :
  Q (Ok (f st)) st → any_post (gets f) st Q.
Proof. done. Qed.

Lemma any_modify (f : app → app) (st : app) (Q : outcome unit → app → Prop) :
  Q (Ok tt) (f st) → any_post (modify f) st Q.
Proof. done. Qed.

Lemma any_sys_exit {A} (st : app) (Q : outcome A → app → Prop) :
  Q SysExit st → any_post sys_exit st Q.
Proof. done. Qed.

Lemma any_post_mono {A} (m : M A) (st : app) (Q Q' : outcome A → app → Prop) :
  any_post m st Q → (∀ r st', Q r st' → Q' r st') → any_post m st Q'.
Proof. unfold any_post. eauto. Qed.

Lemma plain_getitem (parser : Ini.ConfigParser) (name : string) :
  plain (Ini.getitem parser name).
Proof. unfold Ini.getitem. by repeat case_match. Qed.

Lemma plain_getitem_option (proxy : gmap string string) (key : string) :
  plain (Ini.getitem_option proxy key).
Proof. unfold Ini.getitem_option. by case_match. Qed.

Lemma plain_int (s : string) : plain (int s).
Proof. unfold int. by case_match. Qed.

Lemma plain_float (s : string) : plain (float s).
Proof. unfold float. by repeat case_match. Qed.

Lemma plain_getint (proxy : gmap string string) (key : string) :
  plain (Ini.getint proxy key).
Proof.
  unfold Ini.getint. destruct (proxy !! key) as [v|]; [|done].
  pose proof (plain_int v). by destruct (int v).
Qed.

Lemma plain_getint_or (proxy : gmap string string) (key : string) (fallback : Z) :
  plain (Ini.getint_or proxy key fallback).
Proof. unfold Ini.getint_or. destruct (proxy !! key); [apply plain_int|done]. Qed.

Lemma plain_read_options (section : string) (lines : list (string * string))
    (options : gmap string string) :
  plain (Ini.read_options section lines options).
Proof.
  revert options. induction lines as [|[key value] lines IH]; intros options; [done|].
  cbn [Ini.read_options]. by repeat case_match.
Qed.

Lemma plain_read_sections (file : ini_file) (parser : Ini.ConfigParser) :
  plain (Ini.read_sections file parser).
Proof.
  revert parser. induction file as [|[name lines] file IH]; intros parser; [done|].
  cbn [Ini.read_sections].
  repeat case_match; try done; try apply IH;
    match goal with
    | H : Ini.read_options ?s ?l ?o = _ |- _ =>
        pose proof (plain_read_options s l o) as Hp; by rewrite H in Hp
    end.
Qed.

Lemma plain_read (file : option ini_file) : plain (Ini.read file).
Proof. destruct file as [file|]; [apply plain_read_sections|done]. Qed.

Create HintDb plain.
#[local] Hint Resolve plain_getitem plain_getitem_option plain_int plain_float
  plain_getint plain_getint_or plain_read : plain.

Ltac astep :=
  lazymatch goal with
  | |- any_post (bind _ _) _ _ => apply any_bind
  | |- any_post (lift _) _ _ => apply any_lift; [auto with plain | intros ? ? | intros ? ?]
  | |- any_post (gets _) _ _ => apply any_gets
  | |- any_post (modify _) _ _ => apply any_modify
  | |- any_post (ret _) _ _ => apply any_ret
  | |- any_post (do_call _) _ _ => apply any_modify
  | |- any_post sys_exit _ _ => apply any_sys_exit
  | |- any_post (if ?b then _ else _) _ _ => destruct b eqn:?
  | |- any_post (setWindowFlags _) _ _ => unfold setWindowFlags
  | |- any_post (move _ _) _ _ => unfold move
  | |- any_post (show_warning _) _ _ => unfold show_warning
  end.

Ltac asteps := repeat (astep; cbv beta iota delta [failed]; mfields).

Lemma extends_refl (P : call → bool) (l : list call) : extends P l l.
Proof. exists []. by rewrite app_nil_r. Qed.

Lemma extends_snoc (P : call → bool) (l l' : list call) (c : call) :
  extends P l l' → P c = true → extends P l (l' ++ [c]).
Proof.
  intros (cs & -> & Hcs) Hc. exists (cs ++ [c]). split; [by rewrite app_assoc|].
  apply Forall_app. by split; [|constructor].
Qed.

Lemma extends_trans (P : call → bool) (l1 l2 l3 : list call) :
  extends P l1 l2 → extends P l2 l3 → extends P l1 l3.
Proof.
  intros (cs & -> & Hcs) (cs' & -> & Hcs'). exists (cs ++ cs').
  split; [by rewrite app_assoc|]. by apply Forall_app.
Qed.

(** Building the window only makes calls that set it up, ends normally or
    with a Python exception, and leaves the settings file alone. *)
Lemma build_window_trace (d a w : gmap string string) (flags : bool * bool) (st : app) :
  any_post (build_window d a w flags) st
    (λ r st', plain r ∧ settings_ini st' = settings_ini st ∧
              extends chrome_call (log st) (log st')).
Proof.
  unfold build_window, setup_window, restore_position, setup_layout, set_cookies,
    setup_styles, apply_styles, setup_events.
  asteps.
  all: split; [done|]; split; [done|].
  all: repeat (apply extends_snoc; [|reflexivity]); apply extends_refl.
Qed.

Lemma main_trace (file : option ini_file) :
  any_post main (fresh file) (λ r st,
    settings_ini st = file ∧
    match r with
    | Ok _ => ∃ cs, log st = cs ++ [Show] ∧ Forall (λ c, chrome_call c = true) cs
    | SysExit => log st = [ShowWarning auth_warning] ∨ log st = [ShowWarning conflict_warning]
    | Raise _ => Forall (λ c, chrome_call c = true) (log st)
    | Abort _ => False
    end).
Proof.
  unfold main, initUI, load_settings, check_auth, check_exclusive.
  asteps.
  all: lazymatch goal with
       | |- any_post _ _ _ => eapply any_post_mono; [apply build_window_trace|]
       | |- _ => split; [done|]; first [by constructor | by left | by right]
       end.
  all: mfields; intros r st' (Hp & Hs & cs & Hl & Hcs); cbn [List.app] in Hl.
  all: destruct r; try done; cbv beta iota delta [failed]; [|split; [done|by rewrite Hl]].
  all: astep; mfields; split; [done|]; exists cs; by rewrite Hl.
Qed.

(** X4.  Startup, for every settings file and however it ends.  It ends
    normally, by [sys.exit] or with a Python exception, and never writes
    the settings file.  When it ends normally, [show] is its last call and
    all calls before it set the window up.  When it exits, the warning, one
    of the two the program has, is the only call made: nothing of the
    window was set up.  When it raises, no warning was shown and the
    window is not shown.  In no case is the API client called or a triple
    emitted. *)
Theorem startup_trace (file : option ini_file) :
  settings_ini (main (fresh file)).2 = file ∧
  match (main (fresh file)).1 with
  | Ok _ => ∃ cs, log (main (fresh file)).2 = cs ++ [Show] ∧
                  Forall (λ c, chrome_call c = true) cs
  | SysExit => log (main (fresh file)).2 = [ShowWarning auth_warning]
               ∨ log (main (fresh file)).2 = [ShowWarning conflict_warning]
  | Raise _ => Forall (λ c, chrome_call c = true) (log (main (fresh file)).2)
  | Abort _ => False
  end.
Proof. exact (main_trace file). Qed.

(** ** The widgets of the rows *)

Lemma deleted_app (l1 l2 : list call) : deleted (l1 ++ l2) = deleted l1 ++ deleted l2.
Proof. apply omap_app. Qed.

Lemma deleted_chrome (cs : list call) :
  Forall (λ c, chrome_call c = true) cs → deleted cs = [].
Proof. induction 1 as [|c cs Hc _ IH]; [done|]. by destruct c. Qed.

Lemma deleted_clear_item (item : layout_item) :
  deleted (clear_item item) = wid <$> widgets_of item.
Proof.
  induction item as [w stretch|items IH] using layout_item_nested_ind; [done|].
  induction IH as [|item items Hitem _ IHitems]; [done|].
  cbn [clear_item widgets_of] in *. rewrite fmap_app, <- Hitem, <- IHitems.
  change (deleted (TakeAt :: ?l)) with (deleted l). by rewrite deleted_app.
Qed.

Lemma deleted_clear (layout : list layout_item) :
  deleted (clear_layout layout) = wid <$> layout_widgets layout.
Proof. apply deleted_clear_item. Qed.

Lemma taken_clear_item (item : layout_item) : taken (clear_item item) = items_of item.
Proof.
  induction item as [w stretch|items IH] using layout_item_nested_ind; [done|].
  induction IH as [|item items Hitem _ IHitems]; [done|].
  cbn [clear_item items_of] in *. rewrite <- Hitem, <- IHitems.
  unfold taken. cbn [omap list_omap List.length]. by rewrite omap_app, length_app.
Qed.

(** X5.  Clearing a layout schedules for deletion exactly the widgets the
    layout holds, nested layouts included, each once and in the order of
    the layout, and takes out every item, one [takeAt] each; it makes no
    other call. *)
Theorem clear_layout_exact (layout : list layout_item) :
  deleted (clear_layout layout) = wid <$> layout_widgets layout ∧
  taken (clear_layout layout) = items_of (LayoutItem layout) ∧
  Forall (λ c, clearing_call c = true) (clear_layout layout).
Proof.
  split; [apply deleted_clear_item|]. split; [apply taken_clear_item|apply clear_item_calls].
Qed.

Lemma emit_post (a b c : string) (st st' : app) :
  connected st = true → emit a b c st = (Ok tt, st') →
  ∃ h, st' = refreshed h a b c (set_log (log st ++ [Emit a b c]) st).
Proof.
  intros Hconn. unfold emit, bind, do_call, modify, gets, called_by_qt.
  cbn [connected set_log]. rewrite Hconn.
  destruct (update_ui a b c _) as [[[]| | |] st2] eqn:Hui; try done.
  intros [= <-]. by apply update_ui_post in Hui.
Qed.

Lemma accounted_refreshed (h : Z) (a b c : string) (st : app) :
  accounted st → accounted (refreshed h a b c st).
Proof.
  intros [Hids _]. split; [|right; by eexists _, _, _, _, _].
  unfold refreshed, layout_ids. mfields. rewrite !deleted_app.
  rewrite deleted_clear. fold (layout_ids st).
  replace (deleted (AddLayout <$> rows_of (next_id st) h a b c)) with (@nil nat) by done.
  replace (deleted (if fit_window_to_text st then [AdjustSize] else [])) with (@nil nat)
    by (by destruct (fit_window_to_text st)).
  rewrite !app_nil_r, Hids. rewrite (Nat.add_comm 6), seq_app. done.
Qed.

Lemma accounted_set_log (cs : list call) (st : app) :
  deleted cs = [] → accounted st → accounted (set_log (log st ++ cs) st).
Proof.
  intros Hcs [Hids Hrows]. split; [|done].
  unfold layout_ids in *. mfields. by rewrite deleted_app, Hcs, app_nil_r.
Qed.

Lemma update_info_accounted (client : Z → response) (st st' : app) :
  connected st = true → accounted st → update_info client st = (Ok tt, st') → accounted st'.
Proof.
  intros Hconn Hacc Hrun.
  destruct (update_info_shape client st) as [[Heq _]|(a & b & c & st1 & Heq & Hst1)];
    rewrite Heq in Hrun.
  { by injection Hrun as <-. }
  apply emit_post in Hrun as [h ->]; [|by destruct Hst1 as [->|[uid ->]]].
  apply accounted_refreshed, accounted_set_log; [done|].
  destruct Hst1 as [->|[uid ->]]; [done|]. by apply accounted_set_log.
Qed.

Lemma dispatch_accounted (ev : event) (st st' : app) :
  running st → accounted st → dispatch ev st = (Ok tt, st') → accounted st'.
Proof.
  intros Hrun Hacc. pose proof Hrun as [[w Hw] _ Hconn _ _].
  destruct ev as [client|client|b globalPos|globalPos|]; unfold dispatch.
  - unfold bind, gets. destruct (futures st) as [|n]; [by intros [= <-]|].
    unfold modify, add_info_labels. by apply update_info_accounted.
  - unfold bind, gets. destruct (timer st); [|by intros [= <-]].
    by apply update_info_accounted.
  - unfold bind, gets. destruct (press_handler st); [|by intros [= <-]].
    unfold called_by_qt, startMove. by destruct b; unfold modify, ret; intros [= <-].
  - unfold called_by_qt. destruct (oldPos st) as [old|] eqn:Hold.
    + rewrite (mouseMoveEvent_ok w old) by done. intros [= <-].
      destruct Hacc as [Hids Hrows]. split; [|done].
      unfold layout_ids, saved, moved in *. mfields. by rewrite !deleted_app, !app_nil_r.
    + unfold mouseMoveEvent, bind, gets, raise, lift. by rewrite Hold.
  - unfold called_by_qt. rewrite (closeEvent_ok w) by done. intros [= <-].
    destruct Hacc as [Hids Hrows]. split; [|done].
    unfold layout_ids, saved in *. mfields. by rewrite !deleted_app, !app_nil_r.
Qed.

Lemma main_accounted (file : option ini_file) (st : app) :
  main (fresh file) = (Ok tt, st) → accounted st.
Proof.
  intros Hmain. pose proof (main_trace file) as [_ Hlog]. unfold any_post in Hlog.
  rewrite Hmain in Hlog. cbn [fst snd] in Hlog. destruct Hlog as (cs & Hlog & Hcs).
  apply main_ok in Hmain as (parser & d & a & w & flags & st0 & _ & _ & _ & _ & Hb & ->).
  destruct Hb as (_ & _ & _ & _ & Hlayout & Hid & _).
  cbn [log set_log] in Hlog. apply app_inj_tail in Hlog as [-> _].
  unfold accounted, layout_ids. mfields. rewrite Hlayout, Hid. split; [|by left].
  rewrite deleted_app, (deleted_chrome cs Hcs). done.
Qed.

Lemma run_accounted (events : list event) (st0 st : app) :
  running st0 → accounted st0 → run events st0 = (Ok tt, st) → accounted st.
Proof.
  revert st0. induction events as [|ev events IH]; intros st0 Hrunning Hacc; cbn [run].
  - unfold ret. by intros [= <-].
  - unfold bind. destruct (dispatch ev st0) as [[[]| | |] st1] eqn:Hev; try done.
    apply IH; [by eapply dispatch_running|by eapply dispatch_accounted].
Qed.

(** X6.  After a successful startup and any events handled since, every
    label ever made is accounted for: the ids scheduled for deletion,
    followed by the ids of the widgets in the content layout, are exactly
    the ids handed out so far, in order.  So no widget is scheduled for
    deletion twice, none that was deleted is still in the layout, and none
    is lost; and the layout is empty or holds the three rows of one
    update. *)
Theorem widgets_accounted (file : option ini_file) (st0 st : app) (events : list event) :
  main (fresh file) = (Ok tt, st0) →
  run events st0 = (Ok tt, st) →
  deleted (log st) ++ layout_ids st = seq 0 (next_id st) ∧
  NoDup (deleted (log st) ++ layout_ids st) ∧
  (content_layout st = [] ∨ ∃ id h a b c, content_layout st = rows_of id h a b c).
Proof.
  intros Hmain Hrun.
  destruct (run_accounted events st0 st) as [Hids Hrows];
    [by eapply main_running|by eapply main_accounted|done|].
  split; [done|]. split; [|done]. rewrite Hids. apply NoDup_seq.
Qed.

Lemma widgets_accounted_witness :
  deleted (log sample_refreshed) ++ layout_ids sample_refreshed
  = seq 0 (next_id sample_refreshed) ∧
  NoDup (deleted (log sample_refreshed) ++ layout_ids sample_refreshed) ∧
  (content_layout sample_refreshed = []
   ∨ ∃ id h a b c, content_layout sample_refreshed = rows_of id h a b c).
Proof.
  apply (widgets_accounted (Some sample_settings) sample_started sample_refreshed
           [FutureReady sample_client]).
  - vm_compute. reflexivity.
  - vm_compute. reflexivity.
Defined.

(** ** The window flags and the press handler *)

Lemma getitem_option_ok (proxy : gmap string string) (key value : string) :
  Ini.getitem_option proxy key = Ok value → proxy !! key = Some value.
Proof. unfold Ini.getitem_option. destruct (proxy !! key); by intros [= <-]. Qed.

Ltac same_lookups :=
  repeat match goal with
         | H : Ini.getitem_option _ _ = Ok _ |- _ => apply getitem_option_ok in H
         end;
  repeat match goal with
         | H1 : ?m !! ?k = Some ?x, H2 : ?m !! ?k = Some ?y |- _ =>
             assert (y = x) by congruence; subst y; clear H2
         end.

Ltac rewrite_tests :=
  repeat match goal with
         | H : _ = true |- _ => progress rewrite H
         | H : _ = false |- _ => progress rewrite H
         end.

Lemma last_flags (l : list call) (f : Z) :
  last (omap (λ c, match c with SetWindowFlags f => Some f | _ => None end)
          (l ++ [SetWindowFlags f])) = Some f.
Proof. rewrite omap_app. cbn. apply last_snoc. Qed.

Lemma last_flags_other (l : list call) (c : call) (o : option Z) :
  match c with SetWindowFlags _ => False | _ => True end →
  last (omap (λ c, match c with SetWindowFlags f => Some f | _ => None end) l) = o →
  last (omap (λ c, match c with SetWindowFlags f => Some f | _ => None end) (l ++ [c])) = o.
Proof. intros Hc <-. rewrite omap_app. destruct c; try done; cbn; by rewrite app_nil_r. Qed.

Lemma build_window_outfitted (d a w : gmap string string) (flags : bool * bool) (st : app) :
  ok_post (build_window d a w flags) st (λ _ st', outfitted d st st').
Proof.
  unfold build_window, setup_window, restore_position, setup_layout, set_cookies,
    setup_styles, apply_styles, setup_events.
  msteps.
  all: same_lookups; try congruence.
  all: unfold outfitted; mfields; do 3 eexists.
  all: repeat (split; [eassumption|]).
  all: rewrite_tests.
  all: split; [done|]; do 4 (split; [vm_compute; reflexivity|]).
  all: repeat (apply last_flags_other; [done|]); apply last_flags.
Qed.

Lemma main_outfitted (file : option ini_file) (st : app) :
  main (fresh file) = (Ok tt, st) →
  ∃ parser d st0,
    Ini.read file = Ok parser ∧ Ini.getitem parser "Display" = Ok d ∧
    outfitted d (set_config parser (fresh file)) st0 ∧
    st = set_log (log st0 ++ [Show]) st0.
Proof.
  revert st.
  cut (ok_post main (fresh file) (λ _ st,
         ∃ parser d st0,
           Ini.read file = Ok parser ∧ Ini.getitem parser "Display" = Ok d ∧
           outfitted d (set_config parser (fresh file)) st0 ∧
           st = set_log (log st0 ++ [Show]) st0)).
  { intros H st. apply H. }
  unfold main, initUI, load_settings, check_auth, check_exclusive.
  repeat (mstep; cbv beta iota; mfields).
  all: eapply ok_post_mono; [apply build_window_outfitted|].
  all: intros [] st0 Hout; cbv beta; mstep.
  all: by eexists _, _, st0.
Qed.




(** ** Dragging *)

Lemma mouse_move_step (st : app) (old g : Z * Z) :
  running st → oldPos st = Some old →
  ∃ st', dispatch (MouseMove g) st = (Ok tt, st') ∧
    position st' = ((position st).1 + (g.1 - old.1), (position st).2 + (g.2 - old.2)) ∧
    position_stored st' ∧ running st' ∧ oldPos st' = Some g.
Proof.
  intros Hrun Hold. pose proof Hrun as [[w Hw] _ _ _ _].
  eexists. split; [|split; [|split; [|split]]].
  - unfold dispatch, called_by_qt. by rewrite (mouseMoveEvent_ok w old).
  - reflexivity.
  - by apply saved_position_stored, running_set_oldPos, running_moved.
  - by apply running_saved, running_set_oldPos, running_moved.
  - reflexivity.
Qed.

Lemma moves_telescope (gs : list (Z * Z)) (g old : Z * Z) (st : app) :
  running st → oldPos st = Some old →
  ∃ st', run (MouseMove <$> (gs ++ [g])) st = (Ok tt, st') ∧
    position st' = ((position st).1 + (g.1 - old.1), (position st).2 + (g.2 - old.2)) ∧
    position_stored st' ∧ running st' ∧ oldPos st' = Some g.
Proof.
  revert old st. induction gs as [|g1 gs IH]; intros old st Hrun Hold.
  - destruct (mouse_move_step st old g Hrun Hold) as (st' & Hd & Hrest).
    exists st'. split; [|done]. cbn [List.app fmap list_fmap run]. unfold bind. by rewrite Hd.
  - destruct (mouse_move_step st old g1 Hrun Hold) as (st1 & Hd & Hp1 & _ & Hrun1 & Hold1).
    destruct (IH g1 st1 Hrun1 Hold1) as (st' & Hrest & Hp & Hstored & Hrun' & Hold').
    exists st'. split; [|split; [|done]].
    + change (MouseMove <$> (g1 :: gs) ++ [g])
        with (MouseMove g1 :: (MouseMove <$> gs ++ [g])).
      cbn [run]. unfold bind. by rewrite Hd.
    + rewrite Hp, Hp1. cbn [fst snd]. f_equal; lia.
Qed.

Lemma dispatch_press_handler (ev : event) (st st' : app) :
  running st → dispatch ev st = (Ok tt, st') → press_handler st' = press_handler st.
Proof.
  intros Hrun. pose proof Hrun as [[w Hw] _ _ _ _].
  destruct ev as [client|client|b globalPos|globalPos|]; unfold dispatch.
  - unfold bind, gets. destruct (futures st) as [|n]; [by intros [= <-]|].
    unfold modify, add_info_labels. by intros (_ & _ & _ & ->)%update_info_frame.
  - unfold bind, gets. destruct (timer st); [|by intros [= <-]].
    by intros (_ & _ & _ & ->)%update_info_frame.
  - unfold bind, gets. destruct (press_handler st) eqn:Hp; [|by intros [= <-]].
    unfold called_by_qt, startMove. by destruct b; unfold modify, ret; intros [= <-].
  - unfold called_by_qt. destruct (oldPos st) as [old|] eqn:Hold.
    + rewrite (mouseMoveEvent_ok w old) by done. by intros [= <-].
    + unfold mouseMoveEvent, bind, gets, raise, lift. by rewrite Hold.
  - unfold called_by_qt. rewrite (closeEvent_ok w) by done. by intros [= <-].
Qed.

Lemma run_press_handler (events : list event) (st st' : app) :
  running st → run events st = (Ok tt, st') → press_handler st' = press_handler st.
Proof.
  revert st. induction events as [|ev events IH]; intros st Hrun; cbn [run].
  - unfold ret. by intros [= <-].
  - unfold bind. destruct (dispatch ev st) as [[[]| | |] st1] eqn:Hev; try done.
    intros Hrest. rewrite (IH st1);
      [by eapply dispatch_press_handler|by eapply dispatch_running|done].
Qed.

Lemma started_press_handler (file : option ini_file) (st : app) (v : string) :
  main (fresh file) = (Ok tt, st) →
  setting file "Display" "draggable" = Ok (Some v) →
  press_handler st = bool_from_str v.
Proof.
  intros Hmain Hv.
  pose proof (main_outfitted _ _ Hmain) as (parser & d & st0 & Hread & Hd & Hout & ->).
  apply (setting_lookup file parser "Display" _ d _ Hread Hd) in Hv.
  destruct Hout as (_ & _ & v' & _ & _ & Hv' & Hpress & _).
  rewrite Hv in Hv'. injection Hv' as <-. mfields. rewrite Hpress.
  cbn [press_handler set_config fresh]. by rewrite orb_false_r.
Qed.

(** X8.  With [draggable] "1", at any time after startup a drag, a press
    of the left button at [p] followed by moves of the pointer ending at
    [g], is handled to its end and leaves the window displaced by exactly
    [g - p], whatever the points in between; the position is then stored
    in the settings, in memory and in the file, and [g] is where the next
    move starts from. *)
Theorem drag_displaces_window (file : option ini_file) (st0 st : app)
    (events : list event) (p g : Z * Z) (gs : list (Z * Z)) :
  main (fresh file) = (Ok tt, st0) →
  setting file "Display" "draggable" = Ok (Some "1") →
  run events st0 = (Ok tt, st) →
  ∃ st', run (drag p (gs ++ [g])) st = (Ok tt, st') ∧
    position st' = ((position st).1 + (g.1 - p.1), (position st).2 + (g.2 - p.2)) ∧
    position_stored st' ∧ oldPos st' = Some g.
Proof.
  intros Hmain Hdrag Hevents.
  pose proof (main_running _ _ Hmain) as Hrun0.
  pose proof (run_running _ _ _ Hrun0 Hevents) as Hrun.
  pose proof (started_press_handler _ _ _ Hmain Hdrag) as Hpress.
  rewrite <- (run_press_handler _ _ _ Hrun0 Hevents) in Hpress.
  destruct (moves_telescope gs g p (set_oldPos (Some p) st))
    as (st' & Hmoves & Hp & Hstored & _ & Hold); [by apply running_set_oldPos|done|].
  exists st'. split; [|done].
  unfold drag. cbn [run]. unfold bind at 1. unfold dispatch at 1. unfold bind at 1, gets at 1.
  rewrite Hpress. by unfold called_by_qt, startMove, modify.
Qed.

Lemma drag_displaces_window_witness :
  ∃ st', run (drag (5, 5) ([(6, 9); (40, 2)] ++ [(15, 25)])) sample_refreshed = (Ok tt, st') ∧
    position st' = ((position sample_refreshed).1 + ((15, 25).1 - (5, 5).1),
                    (position sample_refreshed).2 + ((15, 25).2 - (5, 5).2)) ∧
    position_stored st' ∧ oldPos st' = Some (15, 25).
Proof.
  apply (drag_displaces_window (Some sample_settings) sample_started sample_refreshed
           [FutureReady sample_client]).
  - vm_compute. reflexivity.
  - vm_compute. reflexivity.
  - vm_compute. reflexivity.
Defined.

Lemma presses_keep_no_drag (events : list event) (st : app) :
  oldPos st = None →
  forallb (λ ev, if press_handler st then is_other_press ev else is_press ev) events = true →
  run events st = (Ok tt, st).
Proof.
  intros Hold. induction events as [|ev events IH]; [done|].
  cbn [forallb run]. intros [Hev Hevs]%andb_prop. unfold bind.
  assert (dispatch ev st = (Ok tt, st)) as ->; [|by apply IH].
  destruct ev as [client|client|b p|p|]; unfold dispatch, bind, gets;
    destruct (press_handler st); try discriminate Hev; try reflexivity.
  all: by destruct b.
Qed.

(** X9.  A move of the pointer that no press of the left button came
    before ends the process: [oldPos] was never assigned, so the handler
    stops with an [AttributeError], a Python exception inside a Qt event
    handler, before it has moved the window or written the settings.  This
    is so right after startup and after any presses that do not start a
    drag: presses of other buttons, or any press when [draggable] is not
    "1" and the press handler is not installed. *)
Theorem move_without_press_aborts (file : option ini_file) (st : app) (v : string)
    (presses : list event) (g : Z * Z) :
  main (fresh file) = (Ok tt, st) →
  setting file "Display" "draggable" = Ok (Some v) →
  forallb (λ ev, if bool_decide (v = "1") then is_other_press ev else is_press ev) presses
  = true →
  run presses st = (Ok tt, st) ∧
  ∃ msg, dispatch (MouseMove g) st = (Abort (AttributeError msg), st).
Proof.
  intros Hmain Hdrag Hpresses.
  pose proof (started_press_handler _ _ _ Hmain Hdrag) as Hpress.
  assert (oldPos st = None) as Hold.
  { apply main_ok in Hmain as (parser & d & a & w & flags & st0 & _ & _ & _ & _ & Hb & ->).
    destruct Hb as (_ & _ & _ & _ & _ & _ & _ & _ & _ & _ & _ & Ho & _).
    mfields. by rewrite Ho. }
  split.
  - apply presses_keep_no_drag; [done|]. by rewrite Hpress.
  - eexists. unfold dispatch, called_by_qt, mouseMoveEvent, bind, gets, raise, lift.
    by rewrite Hold.
Qed.

Lemma move_without_press_aborts_witness :
  run [MousePress LeftButton (5, 5); MousePress RightButton (7, 7)] started_not_draggable
  = (Ok tt, started_not_draggable) ∧
  ∃ msg, dispatch (MouseMove (9, 9)) started_not_draggable
         = (Abort (AttributeError msg), started_not_draggable).
Proof.
  apply (move_without_press_aborts (Some settings_not_draggable) started_not_draggable "0").
  - vm_compute. reflexivity.
  - vm_compute. reflexivity.
  - vm_compute. reflexivity.
Defined.

(** ** The settings that start the widget *)

Lemma has_getitem_option (proxy : gmap string string) (key value : string) :
  Ini.getitem_option proxy key = Ok value → has proxy key.
Proof. intros ?%getitem_option_ok. by exists value. Qed.

Lemma getitem_option_some (proxy : gmap string string) (key value : string) :
  proxy !! key = Some value → Ini.getitem_option proxy key = Ok value.
Proof. unfold Ini.getitem_option. by intros ->. Qed.

Lemma build_window_requirements (d a w : gmap string string) (flags : bool * bool)
    (st : app) :
  Ini.getitem (config st) "Display" = Ok d →
  ok_post (build_window d a w flags) st (λ _ _, buildable d a w).
Proof.
  intros Hd.
  unfold build_window, setup_window, restore_position, setup_layout, set_cookies,
    setup_styles, apply_styles, setup_events.
  msteps.
  all: repeat match goal with
              | H : Ini.getitem _ "Display" = Ok ?x |- _ =>
                  tryif constr_eq x d then fail
                  else (rewrite Hd in H; injection H as <-)
              end.
  all: unfold buildable, is_ok.
  all: repeat split; first [ by eapply has_getitem_option | by eauto | idtac ].
  all: eexists; split; [by apply getitem_option_ok|by eauto].
Qed.

Lemma pre_bind {A B} (m : M A) (k : A → M B) (st : app) (Q : B → app → Prop) :
  ok_pre m st (λ a st1, ok_pre (k a) st1 Q) → ok_pre (bind m k) st Q.
Proof.
  intros (a & st1 & Hm & b & st' & Hk & HQ). exists b, st'. split; [|done].
  unfold bind. by rewrite Hm.
Qed.

Lemma pre_lift {A} (o : outcome A) (a : A) (st : app) (Q : A → app → Prop) :
  o = Ok a → Q a st → ok_pre (lift o) st Q.
Proof. intros -> HQ. by exists a, st. Qed.

Lemma pre_ret {A} (a : A) (st : app) (Q : A → app → Prop) : Q a st → ok_pre (ret a) st Q.
Proof. intros HQ. by exists a, st. Qed.

Lemma pre_gets {A} (f : app → A) (st : app) (Q : A → app → Prop) :
  Q (f st) st → ok_pre (gets f) st Q.
Proof. intros HQ. by exists (f st), st. Qed.

Lemma pre_modify (f : app → app) (st : app) (Q : unit → app → Prop) :
  Q tt (f st) → ok_pre (modify f) st Q.
Proof. intros HQ. by exists tt, (f st). Qed.

Ltac pstep :=
  lazymatch goal with
  | |- ok_pre (bind _ _) _ _ => apply pre_bind
  | |- ok_pre (lift _) _ _ => eapply pre_lift; [eassumption|]
  | |- ok_pre (gets _) _ _ => apply pre_gets
  | |- ok_pre (modify _) _ _ => apply pre_modify
  | |- ok_pre (ret _) _ _ => apply pre_ret
  | |- ok_pre (do_call _) _ _ => apply pre_modify
  | |- ok_pre (if ?b then _ else _) _ _ => destruct b
  | |- ok_pre (setWindowFlags _) _ _ => unfold setWindowFlags
  | |- ok_pre (move _ _) _ _ => unfold move
  end.

Ltac psteps := repeat (pstep; cbv beta; mfields).

(** With what it needs, [build_window] runs to its end and puts the
    window at the position the Window section gives. *)
Lemma build_window_succeeds (d a w : gmap string string) (flags : bool * bool) (st : app)
    (x y : Z) :
  Ini.getitem (config st) "Display" = Ok d →
  buildable d a w →
  Ini.getint_or w "last_x" 100 = Ok x →
  Ini.getint_or w "last_y" 100 = Ok y →
  ok_pre (build_window d a w flags) st (λ _ st', position st' = (x, y)).
Proof.
  intros Hd (Ht & (tr & Htr & [f Hf]) & Ho & _ & _ & [m Hm] & Ha1 & Ha2 & Ha3 & Ha4 &
             [s Hs] & Hfc & Hsb & Hbc & [r Hr] & Har & Hdr) Hx Hy.
  unfold has in *.
  repeat match goal with
         | H : is_Some (_ !! _) |- _ => destruct H as [? H%getitem_option_some]
         end.
  apply getitem_option_some in Htr.
  unfold build_window, setup_window, restore_position, setup_layout, set_cookies,
    setup_styles, apply_styles, setup_events.
  psteps.
  all: done.
Qed.

Lemma credentials_checked (a : gmap string string) :
  falsy (Ini.get a "ltuid_v2") || falsy (Ini.get a "ltoken_v2")
  || falsy (Ini.get a "cookie_token_v2") || falsy (Ini.get a "account_mid_v2") = false →
  credentials_given a.
Proof.
  intros H. repeat (apply orb_false_elim in H as [H ?]).
  assert (∀ key, falsy (Ini.get a key) = false → ∃ value, a !! key = Some value ∧ value ≠ "")
    as Hkey.
  { intros key. unfold falsy, Ini.get. destruct (a !! key) as [value|]; [|done].
    intros Hv%bool_decide_eq_false_1. by exists value. }
  intros key Hin. unfold auth_fields in Hin.
  repeat (apply elem_of_cons in Hin as [->|Hin]; [by apply Hkey|]).
  by apply elem_of_nil in Hin.
Qed.

Lemma flags_checked (d : gmap string string) (ww fw : string) :
  Ini.getitem_option d "word_wrap" = Ok ww →
  Ini.getitem_option d "fit_window_to_text" = Ok fw →
  bool_from_str ww && bool_from_str fw = false →
  flags_exclusive d.
Proof.
  intros Hww%getitem_option_ok Hfw%getitem_option_ok Hboth. exists ww, fw.
  split; [done|]. split; [done|]. intros [-> ->]. done.
Qed.

Lemma main_startable (file : option ini_file) (st : app) :
  main (fresh file) = (Ok tt, st) → startable file.
Proof.
  revert st. cut (ok_post main (fresh file) (λ _ _, startable file)).
  { intros H st. apply H. }
  unfold main, initUI, load_settings, check_auth, check_exclusive.
  repeat (mstep; cbv beta iota; mfields).
  all: eapply ok_post_mono; [by apply build_window_requirements|].
  all: intros [] st0 Hbuild; cbv beta; mstep.
  all: eexists _, _, _, _; repeat (split; [eassumption|]).
  all: split; [by apply credentials_checked|].
  all: split; [by eapply flags_checked|done].
Qed.

Lemma startable_starts (file : option ini_file) (parser : Ini.ConfigParser)
    (d a w : gmap string string) (x y : Z) :
  Ini.read file = Ok parser →
  Ini.getitem parser "Display" = Ok d →
  Ini.getitem parser "Auth" = Ok a →
  Ini.getitem parser "Window" = Ok w →
  credentials_given a → flags_exclusive d → buildable d a w →
  Ini.getint_or w "last_x" 100 = Ok x →
  Ini.getint_or w "last_y" 100 = Ok y →
  ∃ st, main (fresh file) = (Ok tt, st) ∧ position st = (x, y).
Proof.
  intros Hread Hd Ha Hw Hauth (ww & fw & Hww & Hfw & Hex) Hbuild Hx Hy.
  assert (load_settings (fresh file) = (Ok (d, a, w), set_config parser (fresh file)))
    as Hload.
  { unfold load_settings, bind, gets, lift, modify, ret. cbn [settings_ini fresh].
    by rewrite Hread, Hd, Ha, Hw. }
  destruct (build_window_succeeds d a w (bool_from_str ww, bool_from_str fw)
              (set_config parser (fresh file)) x y Hd Hbuild Hx Hy)
    as ([] & st0 & Hrun & Hpos).
  exists (set_log (log st0 ++ [Show]) st0). split; [|done].
  unfold main. unfold bind at 1. rewrite (initUI_loaded d a w _ _ Hload).
  unfold bind at 1. rewrite (check_auth_pass a _ Hauth).
  unfold bind at 1. rewrite (check_exclusive_pass d ww fw _ Hww Hfw Hex).
  by rewrite Hrun.
Qed.


(** ** Starting again *)

Lemma position_stored_fields (st st' : app) :
  settings_ini st' = settings_ini st → config st' = config st → position st' = position st →
  position_stored st → position_stored st'.
Proof. unfold position_stored. by intros -> -> ->. Qed.

Lemma dispatch_position (ev : event) (st st' : app) :
  running st → dispatch ev st = (Ok tt, st') →
  (settings_ini st' = settings_ini st ∧ config st' = config st ∧ position st' = position st)
  ∨ position_stored st'.
Proof.
  intros Hrun. pose proof Hrun as [[w Hw] _ _ _ _].
  destruct ev as [client|client|b globalPos|globalPos|]; unfold dispatch.
  - unfold bind, gets. destruct (futures st) as [|n]; [intros [= <-]; by left|].
    unfold modify, add_info_labels. intros Hinfo. left.
    pose proof (update_info_frame _ _ _ Hinfo) as (_ & -> & _).
    by pose proof (update_info_keeps _ _ _ Hinfo) as (-> & -> & _).
  - unfold bind, gets. destruct (timer st); [|intros [= <-]; by left].
    intros Hinfo. left.
    pose proof (update_info_frame _ _ _ Hinfo) as (_ & -> & _).
    by pose proof (update_info_keeps _ _ _ Hinfo) as (-> & -> & _).
  - unfold bind, gets. destruct (press_handler st); [|intros [= <-]; by left].
    unfold called_by_qt, startMove. destruct b; unfold modify, ret; intros [= <-]; by left.
  - change (called_by_qt (mouseMoveEvent globalPos) st)
      with (dispatch (MouseMove globalPos) st).
    intros Hmove. right. destruct (oldPos st) as [old|] eqn:Hold.
    + destruct (mouse_move_step st old globalPos Hrun Hold) as (st1 & Hd & _ & Hstored & _).
      rewrite Hd in Hmove. by injection Hmove as <-.
    + revert Hmove. unfold dispatch, called_by_qt, mouseMoveEvent, bind, gets, raise, lift.
      by rewrite Hold.
  - unfold called_by_qt. rewrite (closeEvent_ok w) by done. intros [= <-]. right.
    apply (position_stored_fields (saved w st)); try done.
    by apply saved_position_stored.
Qed.

Lemma run_position (events : list event) (st0 st : app) :
  running st0 → run events st0 = (Ok tt, st) →
  (settings_ini st = settings_ini st0 ∧ config st = config st0 ∧ position st = position st0)
  ∨ position_stored st.
Proof.
  revert st0. induction events as [|ev events IH]; intros st0 Hrun; cbn [run].
  - unfold ret. intros [= <-]. by left.
  - unfold bind. destruct (dispatch ev st0) as [[[]| | |] st1] eqn:Hev; try done.
    intros Hrest. pose proof (dispatch_running _ _ _ Hrun Hev) as Hrun1.
    destruct (IH st1 Hrun1 Hrest) as [(Hs & Hc & Hp)|Hstored]; [|by right].
    destruct (dispatch_position _ _ _ Hrun Hev) as [(Hs1 & Hc1 & Hp1)|Hstored1].
    + left. by rewrite Hs, Hc, Hp.
    + right. by apply (position_stored_fields st1).
Qed.

Lemma kept_getitem (before after : Ini.ConfigParser) (section : string) :
  other_settings_kept before after → section ≠ "Window" →
  Ini.getitem after section = Ini.getitem before section.
Proof.
  intros (Hdef & Hsec & _) Hne. unfold Ini.getitem. by rewrite Hdef, (Hsec section Hne).
Qed.

(** X11.  Starting again.  After a successful startup and any events
    handled since, starting the program again on the settings file as it
    then is succeeds and puts the window where it was: either nothing was
    written and the window never moved, or the file holds the position of
    the window, which reads back as the same integers, and every other
    option as it was. *)
Theorem restart_restores_position (file : option ini_file) (st0 st : app)
    (events : list event) :
  main (fresh file) = (Ok tt, st0) →
  run events st0 = (Ok tt, st) →
  ∃ st1, main (fresh (settings_ini st)) = (Ok tt, st1) ∧ position st1 = position st.
Proof.
  intros Hmain Hevents.
  pose proof (main_running _ _ Hmain) as Hrun0.
  pose proof (run_running _ _ _ Hrun0 Hevents) as Hrun.
  pose proof (main_startable _ _ Hmain)
    as (parser & d & a & w & Hread & Hd & Ha & Hw & Hauth & Hex & Hbuild).
  pose proof (main_ok _ _ Hmain)
    as (parser' & d' & a' & w' & flags & st00 & Hread' & _ & _ & _ & Hbuilt & Hst0).
  rewrite Hread in Hread'. injection Hread' as <-.
  assert (config st0 = parser ∧ settings_ini st0 = file) as [Hconfig Hfile].
  { destruct Hbuilt as (Hc & Hs & _). subst st0. mfields. by rewrite Hc, Hs. }
  destruct (run_position _ _ _ Hrun0 Hevents) as [(Hs & _ & Hp)|Hstored].
  { exists st0. by rewrite Hs, Hfile, Hp. }
  destruct (run_keeps _ _ _ Hrun0 Hevents) as (Hkept & _).
  rewrite Hconfig in Hkept.
  destruct Hstored as (Hx & Hy & _ & Hreread & _ & _ & Hix & Hiy).
  apply section_get_ok in Hx as (w1 & Hw1 & Hx).
  apply section_get_ok in Hy as (w2 & Hw2 & Hy).
  rewrite Hw1 in Hw2. injection Hw2 as <-.
  destruct (startable_starts (settings_ini st) (config st) d a w1
              (position st).1 (position st).2) as (st1 & Hst1 & Hpos); try done.
  - by rewrite (kept_getitem parser).
  - by rewrite (kept_getitem parser).
  - destruct Hbuild as (? & ? & ? & _ & _ & ?). unfold buildable, is_ok, Ini.getint_or.
    rewrite Hx, Hy. split; [done|]. split; [done|]. split; [done|].
    split; [by eexists|]. split; [by eexists|]. done.
  - unfold Ini.getint_or. by rewrite Hx.
  - unfold Ini.getint_or. by rewrite Hy.
  - exists st1. split; [done|]. rewrite Hpos. by destruct (position st).
Qed.

Lemma restart_restores_position_witness :
  ∃ st1, main (fresh (settings_ini (run (drag (5, 5) [(15, 25)]) sample_started).2))
         = (Ok tt, st1) ∧
    position st1 = position (run (drag (5, 5) [(15, 25)]) sample_started).2.
Proof.
  apply (restart_restores_position (Some sample_settings) sample_started
           (run (drag (5, 5) [(15, 25)]) sample_started).2 (drag (5, 5) [(15, 25)])).
  - vm_compute. reflexivity.
  - vm_compute. reflexivity.
Defined.

(** ** Other failures of the API client *)



(** ** The calls of the event handlers *)

Lemma render_event_call (cs : list call) :
  Forall (λ c, render_call c = true) cs → Forall (λ c, event_call c = true) cs.
Proof. intros H. eapply Forall_impl; [exact H|]. by intros []. Qed.

Lemma update_info_event_calls (client : Z → response) (st st' : app) :
  update_info client st = (Ok tt, st') → extends event_call (log st) (log st').
Proof.
  intros Hrun. destruct (update_info_trace client st) as (cs & Hlog & Hcs).
  rewrite Hrun in Hlog. exists cs. split; [done|].
  destruct Hcs as [->|(pre & a & b & c & rs & -> & Hpre & Hrs)]; [done|].
  apply Forall_app. split.
  - destruct Hpre as [->|[uid ->]]; by repeat constructor.
  - constructor; [done|]. by apply render_event_call.
Qed.

Lemma dispatch_event_calls (ev : event) (st st' : app) :
  running st → dispatch ev st = (Ok tt, st') → extends event_call (log st) (log st').
Proof.
  intros Hrun. pose proof Hrun as [[w Hw] _ _ _ _].
  destruct ev as [client|client|b globalPos|globalPos|]; unfold dispatch.
  - unfold bind, gets. destruct (futures st) as [|n]; [intros [= <-]; apply extends_refl|].
    unfold modify, add_info_labels. by intros ?%update_info_event_calls.
  - unfold bind, gets. destruct (timer st); [|intros [= <-]; apply extends_refl].
    by intros ?%update_info_event_calls.
  - unfold bind, gets. destruct (press_handler st); [|intros [= <-]; apply extends_refl].
    unfold called_by_qt, startMove.
    destruct b; unfold modify, ret; intros [= <-]; apply extends_refl.
  - unfold called_by_qt. destruct (oldPos st) as [old|] eqn:Hold.
    + rewrite (mouseMoveEvent_ok w old) by done. intros [= <-].
      unfold saved, moved. mfields.
      repeat (apply extends_snoc; [|reflexivity]). apply extends_refl.
    + unfold mouseMoveEvent, bind, gets, raise, lift. by rewrite Hold.
  - unfold called_by_qt. rewrite (closeEvent_ok w) by done. intros [= <-].
    unfold saved. mfields.
    repeat (apply extends_snoc; [|reflexivity]). apply extends_refl.
Qed.

Lemma run_event_calls (events : list event) (st st' : app) :
  running st → run events st = (Ok tt, st') → extends event_call (log st) (log st').
Proof.
  revert st. induction events as [|ev events IH]; intros st Hrun; cbn [run].
  - unfold ret. intros [= <-]. apply extends_refl.
  - unfold bind. destruct (dispatch ev st) as [[[]| | |] st1] eqn:Hev; try done.
    intros Hrest. eapply extends_trans; [by eapply dispatch_event_calls|].
    apply IH; [by eapply dispatch_running|done].
Qed.

(** X13.  After a successful startup, the handlers of the events only
    call the API client, emit, change the rows, move the window, write the
    settings file and accept the close event: whatever events are handled,
    no warning is shown, and the window flags, the opacity, the style
    sheets, the cookies, the signal connection and the timer set at
    startup are never touched again. *)
Theorem handled_events_calls (file : option ini_file) (st0 st : app) (events : list event) :
  main (fresh file) = (Ok tt, st0) →
  run events st0 = (Ok tt, st) →
  ∃ cs, log st = log st0 ++ cs ∧ Forall (λ c, event_call c = true) cs ∧
        warnings (log st) = [] ∧ window_flags st = window_flags st0.
Proof.
  intros Hmain Hevents.
  pose proof (main_running _ _ Hmain) as Hrun0.
  destruct (run_event_calls _ _ _ Hrun0 Hevents) as (cs & Hlog & Hcs).
  exists cs. split; [done|]. split; [done|]. split.
  - pose proof (main_trace file) as [_ Hstart]. unfold any_post in Hstart.
    rewrite Hmain in Hstart. cbn [fst snd] in Hstart. destruct Hstart as (cs0 & Hlog0 & Hcs0).
    rewrite Hlog, Hlog0. unfold warnings. rewrite !omap_app.
    assert (∀ l, Forall (λ c, chrome_call c = true) l →
                 omap (λ c, match c with ShowWarning m => Some m | _ => None end) l = [])
      as Hchrome.
    { induction 1 as [|c l Hc _ IH]; [done|]. by destruct c. }
    assert (∀ l, Forall (λ c, event_call c = true) l →
                 omap (λ c, match c with ShowWarning m => Some m | _ => None end) l = [])
      as Hevent.
    { induction 1 as [|c l Hc _ IH]; [done|]. by destruct c. }
    by rewrite (Hchrome cs0 Hcs0), (Hevent cs Hcs).
  - clear Hlog Hcs Hmain. revert st0 Hrun0 Hevents.
    induction events as [|ev events IH]; intros st0 Hrun0; cbn [run].
    + unfold ret. by intros [= <-].
    + unfold bind. destruct (dispatch ev st0) as [[[]| | |] st1] eqn:Hev; try done.
      intros Hrest. rewrite (IH st1); [|by eapply dispatch_running|done].
      pose proof Hrun0 as [[w Hw] _ _ _ _]. revert Hev.
      destruct ev as [client|client|b globalPos|globalPos|]; unfold dispatch.
      * unfold bind, gets. destruct (futures st0) as [|n]; [by intros [= <-]|].
        unfold modify, add_info_labels.
        intros [->|(a & b & c & st2 & Hemit & Hst2)]%update_info_post; [done|].
        apply emit_post in Hemit as [h ->];
          [by destruct Hst2 as [->|[l ->]]|destruct Hst2 as [->|[l ->]]; apply Hrun0].
      * unfold bind, gets. destruct (timer st0); [|by intros [= <-]].
        intros [->|(a & b & c & st2 & Hemit & Hst2)]%update_info_post; [done|].
        apply emit_post in Hemit as [h ->];
          [by destruct Hst2 as [->|[l ->]]|destruct Hst2 as [->|[l ->]]; apply Hrun0].
      * unfold bind, gets. destruct (press_handler st0); [|by intros [= <-]].
        unfold called_by_qt, startMove. by destruct b; unfold modify, ret; intros [= <-].
      * unfold called_by_qt. destruct (oldPos st0) as [old|] eqn:Hold.
        -- rewrite (mouseMoveEvent_ok w old) by done. by intros [= <-].
        -- unfold mouseMoveEvent, bind, gets, raise, lift. by rewrite Hold.
      * unfold called_by_qt. rewrite (closeEvent_ok w) by done. by intros [= <-].
Qed.

Lemma handled_events_calls_witness :
  ∃ cs, log sample_refreshed = log sample_started ++ cs ∧
        Forall (λ c, event_call c = true) cs ∧
        warnings (log sample_refreshed) = [] ∧
        window_flags sample_refreshed = window_flags sample_started.
Proof.
  apply (handled_events_calls (Some sample_settings) sample_started sample_refreshed
           [FutureReady sample_client]).
  - vm_compute. reflexivity.
  - vm_compute. reflexivity.
Defined.

(** ** The check-in icon *)

(** X14.  After a successful startup and any events handled since, a
    press of a mouse button on a label of the rows opens a URL only when
    the left button is pressed on the check-in icon, the third label of
    the layout, and the URL is then the check-in page; and when the layout
    has rows, the check-in icon is there and opens that page on a press of
    the left button, while the other buttons are handed to [QLabel]. *)
Theorem checkin_icon_opens_url (file : option ini_file) (st0 st : app)
    (events : list event) :
  main (fresh file) = (Ok tt, st0) →
  run events st0 = (Ok tt, st) →
  (∀ w b u, w ∈ layout_widgets (content_layout st) →
     label_mousePressEvent w b = OpenUrl u →
     b = LeftButton ∧ u = checkin_url ∧
     layout_widgets (content_layout st) !! 2%nat = Some w) ∧
  (content_layout st ≠ [] →
   ∃ icon, layout_widgets (content_layout st) !! 2%nat = Some icon ∧
     label_mousePressEvent icon LeftButton = OpenUrl checkin_url ∧
     label_mousePressEvent icon RightButton = SuperMousePress ∧
     label_mousePressEvent icon MidButton = SuperMousePress).
Proof.
  intros Hmain Hevents.
  destruct (run_accounted events st0 st) as [_ [->|(id & h & a & b & c & ->)]];
    [by eapply main_running|by eapply main_accounted|done| |].
  - split; [|done]. intros w b u Hin. by apply elem_of_nil in Hin.
  - split.
    + intros w btn u Hin. cbn in Hin.
      repeat (apply elem_of_cons in Hin as [->|Hin];
        [intros Hp; destruct btn; try discriminate Hp; by injection Hp as <-|]).
      by apply elem_of_nil in Hin.
    + intros _. eexists. split; [reflexivity|]. done.
Qed.

Lemma checkin_icon_opens_url_witness :
  (∀ w b u, w ∈ layout_widgets (content_layout sample_refreshed) →
     label_mousePressEvent w b = OpenUrl u →
     b = LeftButton ∧ u = checkin_url ∧
     layout_widgets (content_layout sample_refreshed) !! 2%nat = Some w) ∧
  (content_layout sample_refreshed ≠ [] →
   ∃ icon, layout_widgets (content_layout sample_refreshed) !! 2%nat = Some icon ∧
     label_mousePressEvent icon LeftButton = OpenUrl checkin_url ∧
     label_mousePressEvent icon RightButton = SuperMousePress ∧
     label_mousePressEvent icon MidButton = SuperMousePress).
Proof.
  apply (checkin_icon_opens_url (Some sample_settings) sample_started sample_refreshed
           [FutureReady sample_client]).
  - vm_compute. reflexivity.
  - vm_compute. reflexivity.
Defined.

(** ** The background frame *)

Lemma frame_of_set (fs : files) (l : list call) (image_path : option string) :
  frame_of fs (l ++ [SetBackgroundImage image_path]) = setBackgroundImage fs image_path.
Proof. unfold frame_of. by rewrite fold_left_app. Qed.

Lemma frame_of_other (fs : files) (l : list call) (c : call) :
  match c with SetBackgroundImage _ => False | _ => True end →
  frame_of fs (l ++ [c]) = frame_of fs l.
Proof. intros Hc. unfold frame_of. rewrite fold_left_app. by destruct c. Qed.

Lemma frame_color_set (l : list call) (color : string) :
  frame_color (l ++ [SetFrameStyleSheet color]) = Some color.
Proof. unfold frame_color. by rewrite fold_left_app. Qed.

Lemma frame_color_other (l : list call) (c : call) :
  match c with SetFrameStyleSheet _ => False | _ => True end →
  frame_color (l ++ [c]) = frame_color l.
Proof. intros Hc. unfold frame_color. rewrite fold_left_app. by destruct c. Qed.

Lemma build_window_backed (fs : files) (d a w : gmap string string) (flags : bool * bool)
    (st : app) :
  frame_color (log st) = None →
  ok_post (build_window d a w flags) st (λ _ st', backed fs d st').
Proof.
  intros Hcolor.
  unfold build_window, setup_window, restore_position, setup_layout, set_cookies,
    setup_styles, apply_styles, setup_events.
  msteps.
  all: same_lookups.
  all: unfold backed; mfields; do 2 eexists.
  all: repeat (split; [eassumption|]).
  all: cbv zeta; rewrite_tests.
  all: split.
  all: repeat (rewrite frame_of_other by done); rewrite ?frame_of_set; try done.
  all: repeat (rewrite frame_color_other by done); rewrite ?frame_color_set; done.
Qed.

Lemma frame_of_events (fs : files) (l cs : list call) :
  Forall (λ c, event_call c = true) cs → frame_of fs (l ++ cs) = frame_of fs l.
Proof.
  intros Hcs. unfold frame_of. rewrite fold_left_app.
  generalize (fold_left
    (λ f c, match c with
            | SetBackgroundImage image_path => setBackgroundImage fs image_path
            | _ => f
            end) l None).
  induction Hcs as [|c cs Hc _ IH]; intros f; [done|]. cbn [fold_left]. rewrite <- (IH f).
  by destruct c.
Qed.

Lemma frame_color_events (l cs : list call) :
  Forall (λ c, event_call c = true) cs → frame_color (l ++ cs) = frame_color l.
Proof.
  intros Hcs. unfold frame_color. rewrite fold_left_app.
  generalize (fold_left
    (λ o c, match c with
            | SetFrameStyleSheet color => Some color
            | _ => o
            end) l None).
  induction Hcs as [|c cs Hc _ IH]; intros f; [done|]. cbn [fold_left]. rewrite <- (IH f).
  by destruct c.
Qed.

Lemma main_backed (fs : files) (file : option ini_file) (st : app) :
  main (fresh file) = (Ok tt, st) →
  ∃ parser d,
    Ini.read file = Ok parser ∧ Ini.getitem parser "Display" = Ok d ∧ backed fs d st.
Proof.
  revert st.
  cut (ok_post main (fresh file) (λ _ st,
         ∃ parser d,
           Ini.read file = Ok parser ∧ Ini.getitem parser "Display" = Ok d ∧
           backed fs d st)).
  { intros H st. apply H. }
  unfold main, initUI, load_settings, check_auth, check_exclusive.
  repeat (mstep; cbv beta iota; mfields).
  all: eapply ok_post_mono; [by apply build_window_backed|].
  all: intros [] st0 (sb & color & Hsb & Hcolor & Hframe & Hfc); cbv beta; mstep.
  all: eexists _, _; repeat (split; [eassumption|]).
  all: exists sb, color; repeat (split; [eassumption|]); mfields; cbv zeta.
  all: by rewrite frame_of_other, frame_color_other.
Qed.

(** X15.  What the background frame paints.  After a successful startup
    and any events handled since, the frame draws the image exactly when
    [show_background] is "1", [background_image] is given and not empty,
    the file exists and [QPixmap] could load it; in every other case it
    fills its rectangle.  The style sheet with [background_color] is given
    to the frame exactly when no image is asked for: when the image is
    asked for but the file is missing, the frame gets neither the image
    nor the colour. *)
Theorem background_painting (fs : files) (file : option ini_file) (st0 st : app)
    (events : list event) (sb : string) (o : option string) :
  main (fresh file) = (Ok tt, st0) →
  run events st0 = (Ok tt, st) →
  setting file "Display" "show_background" = Ok (Some sb) →
  setting file "Display" "background_image" = Ok o →
  paintEvent (frame_of fs (log st))
  = (if bool_decide (sb = "1") && negb (bool_decide (default "" o = ""))
        && path_exists fs (default "" o) && loadable fs (default "" o)
     then DrawPixmap (default "" o) else FillRect) ∧
  (frame_color (log st) = None ↔ sb = "1" ∧ default "" o ≠ "").
Proof.
  intros Hmain Hevents Hsb Ho.
  pose proof (main_running _ _ Hmain) as Hrun0.
  destruct (run_event_calls _ _ _ Hrun0 Hevents) as (cs & -> & Hcs).
  rewrite (frame_of_events fs _ _ Hcs), (frame_color_events _ _ Hcs).
  destruct (main_backed fs _ _ Hmain) as (parser & d & Hread & Hd & Hback).
  apply (setting_lookup file parser "Display" _ d _ Hread Hd) in Hsb, Ho.
  destruct Hback as (sb' & color & Hsb' & Hcolor & Hframe & Hfc).
  rewrite Hsb in Hsb'. injection Hsb' as <-.
  cbv zeta in Hframe, Hfc. unfold Ini.get_or in Hframe, Hfc. rewrite Ho in Hframe, Hfc.
  rewrite Hframe, Hfc. unfold bool_from_str, setBackgroundImage.
  destruct (bool_decide (sb = "1")) eqn:Hb; cbn [andb].
  - apply bool_decide_eq_true_1 in Hb.
    destruct (bool_decide (default "" o = "")) eqn:Hi; cbn [negb andb].
    + apply bool_decide_eq_true_1 in Hi. split; [done|]. split; [done|]. by intros [_ ?].
    + apply bool_decide_eq_false_1 in Hi. split; [|done].
      destruct (path_exists fs (default "" o)); [|done]. cbn [paintEvent].
      rewrite negb_involutive. by destruct (loadable fs (default "" o)).
  - apply bool_decide_eq_false_1 in Hb. split; [done|]. split; [done|]. by intros [? _].
Qed.

Lemma background_painting_witness :
  paintEvent (frame_of no_files (log started_with_image))
  = (if bool_decide ("1" = "1") && negb (bool_decide (default "" (Some "bg.png") = ""))
        && path_exists no_files (default "" (Some "bg.png"))
        && loadable no_files (default "" (Some "bg.png"))
     then DrawPixmap (default "" (Some "bg.png")) else FillRect) ∧
  (frame_color (log started_with_image) = None
   ↔ "1" = "1" ∧ default "" (Some "bg.png") ≠ "").
Proof.
  apply (background_painting no_files (Some settings_with_image) started_with_image
           started_with_image []).
  - vm_compute. reflexivity.
  - vm_compute. reflexivity.
  - vm_compute. reflexivity.
  - vm_compute. reflexivity.
Defined.

(** ** The notes hidden *)

Lemma update_info_hidden (client : Z → response) (st : app) (v : string) (uid : Z)
    (o : option string) :
  Ini.section_get (config st) "Auth" "ltuid_v2" = Ok (Some v) →
  int v = Ok uid →
  Ini.section_get (config st) "Display" "show_notes" = Ok o →
  default "0" o ≠ "1" →
  update_info client st = (Ok tt, st).
Proof.
  intros (auth & Hauth & Hltuid)%section_get_ok Huid (display & Hdisplay & Hshow)%section_get_ok
    Hoff.
  apply (update_info_skip st client auth display v Hauth Hltuid uid Huid Hdisplay).
  unfold Ini.get_or, bool_from_str. rewrite Hshow. by apply bool_decide_eq_false_2.
Qed.

Lemma dispatch_hidden (ev : event) (st st' : app) (v : string) (uid : Z) (o : option string) :
  running st →
  Ini.section_get (config st) "Auth" "ltuid_v2" = Ok (Some v) →
  int v = Ok uid →
  Ini.section_get (config st) "Display" "show_notes" = Ok o →
  default "0" o ≠ "1" →
  dispatch ev st = (Ok tt, st') →
  content_layout st' = content_layout st ∧ emitted (log st') = emitted (log st) ∧
  api_calls (log st') = api_calls (log st).
Proof.
  intros Hrun Hltuid Huid Hshow Hoff. pose proof Hrun as [[w Hw] _ _ _ _].
  destruct ev as [client|client|b globalPos|globalPos|]; unfold dispatch.
  - unfold bind, gets. destruct (futures st) as [|n]; [by intros [= <-]|].
    unfold modify, add_info_labels.
    rewrite (update_info_hidden client (set_futures n st) v uid o) by done.
    by intros [= <-].
  - unfold bind, gets. destruct (timer st); [|by intros [= <-]].
    rewrite (update_info_hidden client st v uid o) by done. by intros [= <-].
  - unfold bind, gets. destruct (press_handler st); [|by intros [= <-]].
    unfold called_by_qt, startMove. by destruct b; unfold modify, ret; intros [= <-].
  - unfold called_by_qt. destruct (oldPos st) as [old|] eqn:Hold.
    + rewrite (mouseMoveEvent_ok w old) by done. intros [= <-].
      unfold saved, moved. mfields. unfold emitted, api_calls. rewrite !omap_app. cbn.
      by rewrite !app_nil_r.
    + unfold mouseMoveEvent, bind, gets, raise, lift. by rewrite Hold.
  - unfold called_by_qt. rewrite (closeEvent_ok w) by done. intros [= <-].
    unfold saved. mfields. unfold emitted, api_calls. rewrite !omap_app. cbn.
    by rewrite !app_nil_r.
Qed.

Lemma run_hidden (events : list event) (st st' : app) (v : string) (uid : Z)
    (o : option string) :
  running st →
  Ini.section_get (config st) "Auth" "ltuid_v2" = Ok (Some v) →
  int v = Ok uid →
  Ini.section_get (config st) "Display" "show_notes" = Ok o →
  default "0" o ≠ "1" →
  run events st = (Ok tt, st') →
  content_layout st' = content_layout st ∧ emitted (log st') = emitted (log st) ∧
  api_calls (log st') = api_calls (log st).
Proof.
  intros Hrun Hltuid Huid Hshow Hoff. revert st Hrun Hltuid Hshow.
  induction events as [|ev events IH]; intros st Hrun Hltuid Hshow; cbn [run].
  - unfold ret. by intros [= <-].
  - unfold bind. destruct (dispatch ev st) as [[[]| | |] st1] eqn:Hev; try done.
    intros Hrest.
    destruct (dispatch_hidden _ _ _ _ _ _ Hrun Hltuid Huid Hshow Hoff Hev) as (<- & <- & <-).
    destruct (dispatch_keeps _ _ _ Hrun Hev) as ((_ & _ & Hkept) & _).
    apply (IH st1); [by eapply dispatch_running| | |done].
    + by rewrite Hkept.
    + by rewrite Hkept.
Qed.

(** X16.  With a numeric account id and the notes hidden ([show_notes]
    absent or not "1"), the widget stays empty: whatever events are
    handled after startup, and whatever the API client would return, the
    content layout has no row, no triple is emitted and the client is
    never called; every tick of the timer leaves the state as it is. *)
Theorem hidden_notes_stay_empty (file : option ini_file) (st0 st : app)
    (events : list event) (v : string) (uid : Z) (o : option string) :
  main (fresh file) = (Ok tt, st0) →
  setting file "Auth" "ltuid_v2" = Ok (Some v) →
  int v = Ok uid →
  setting file "Display" "show_notes" = Ok o →
  default "0" o ≠ "1" →
  run events st0 = (Ok tt, st) →
  content_layout st = [] ∧ emitted (log st) = [] ∧ api_calls (log st) = [] ∧
  ∀ client, dispatch (TimerTimeout client) st = (Ok tt, st).
Proof.
  intros Hmain Hltuid Huid Hshow Hoff Hevents.
  pose proof (main_running _ _ Hmain) as Hrun0.
  pose proof (run_running _ _ _ Hrun0 Hevents) as Hrun.
  apply (started_setting _ _ _ _ _ Hmain) in Hltuid, Hshow.
  destruct (run_hidden _ _ _ _ _ _ Hrun0 Hltuid Huid Hshow Hoff Hevents)
    as (Hlayout & Hem & Hapi).
  destruct (run_keeps _ _ _ Hrun0 Hevents) as ((_ & _ & Hkept) & _).
  rewrite Hlayout, Hem, Hapi.
  pose proof (main_trace file) as [_ Hstart]. unfold any_post in Hstart.
  rewrite Hmain in Hstart. cbn [fst snd] in Hstart. destruct Hstart as (cs0 & Hlog0 & Hcs0).
  pose proof (main_accounted _ _ Hmain) as [_ Hrows].
  assert (content_layout st0 = []) as Hempty.
  { apply main_ok in Hmain as (? & ? & ? & ? & ? & st00 & _ & _ & _ & _ & Hb & ->).
    by destruct Hb as (_ & _ & _ & _ & Hl & _). }
  split; [done|]. rewrite Hlog0. unfold emitted, api_calls. rewrite !omap_app. cbn.
  assert (∀ A (f : call → option A), (∀ c, chrome_call c = true → f c = None) →
            omap f cs0 = []) as Hnone.
  { intros A f Hf. clear Hlog0. induction Hcs0 as [|c l Hc _ IH]; [done|].
    cbn. by rewrite (Hf c Hc). }
  rewrite !Hnone by (by intros []). split; [done|]. split; [done|].
  intros client. unfold dispatch, bind, gets. destruct (timer st); [|done].
  apply (update_info_hidden client st v uid o); [|done| |done]; by rewrite Hkept.
Qed.

Lemma hidden_notes_stay_empty_witness :
  content_layout started_hidden = [] ∧ emitted (log started_hidden) = [] ∧
  api_calls (log started_hidden) = [] ∧
  ∀ client, dispatch (TimerTimeout client) started_hidden = (Ok tt, started_hidden).
Proof.
  apply (hidden_notes_stay_empty (Some settings_hidden) started_hidden started_hidden []
           "123456789" 123456789 (Some "0")).
  - vm_compute. reflexivity.
  - vm_compute. reflexivity.
  - vm_compute. reflexivity.
  - vm_compute. reflexivity.
  - discriminate.
  - vm_compute. reflexivity.
Defined.
